(** * libcf loss functions ([src/model/loss.hpp])

    The header declares the abstract class [Loss] (four virtual methods),
    six stateless subclasses and the factory [Loss::create].  Every method
    is a pure function of one or two [double]s; the only effect in the
    file is the fatal [CHECK] of [LogisticLoss].

    The methods are transcribed once, over an interface [Arith] that
    collects the operations of [double] the header uses.  Two instances
    are studied:
    - IEEE 754 binary64, as Rocq's primitive [float] (round to nearest
      even, one NaN, signed zeros, infinities), with the three libm
      functions [exp], [log], [log1p] left arbitrary;
    - exact real arithmetic, used for the analytic facts (limits, strict
      monotonicity, derivatives) that rounding destroys. *)

From Stdlib Require Import ZArith QArith Qreals Bool String List Lia.
From Stdlib Require Import Floats.
From Stdlib Require Import Reals Lra.

Set Warnings "-inexact-float".

(** ** Outcome of a call *)

(** A call either returns its value or dies in a [CHECK]; the text of the
    failed condition is kept, as the abort message shows it. *)
Inductive result (A : Type) : Type :=
| Ret (a : A)
| Fatal (cond : string).

Arguments Ret {A} a.
Arguments Fatal {A} cond.

Definition bind {A B : Type} (r : result A) (k : A -> result B) : result B :=
  match r with
  | Ret a => k a
  | Fatal c => Fatal c
  end.

Notation "c1 ;; c2" := (bind c1 (fun _ => c2))
  (at level 61, right associativity).

(** Modelled from the spec: the [CHECK] macro, which the header uses but
    does not define (it comes from the logging library).  The spec calls
    its failure a fatal precondition failure that halts the computation:
    nothing after a failed [CHECK] runs. *)
Definition CHECK (cond : bool) (text : string) : result unit :=
  if cond then Ret tt else Fatal text.

Definition is_Ret {A : Type} (r : result A) : bool :=
  match r with Ret _ => true | Fatal _ => false end.

Definition is_Fatal {A : Type} (r : result A) : bool :=
  match r with Ret _ => false | Fatal _ => true end.

(** ** The arithmetic the header needs *)

(** [lit q] is the [double] a decimal or integer literal [q] denotes (an
    [int] operand is converted to [double] before the operation).  The
    other comparisons of C++ are these with the operands swapped:
    [a > b] is [b < a] and [a >= b] is [b <= a], for NaN too. *)
Class Arith (D : Type) : Type := {
  lit : Q -> D;
  add : D -> D -> D;
  sub : D -> D -> D;
  mul : D -> D -> D;
  div : D -> D -> D;
  neg : D -> D;
  ltb : D -> D -> bool;
  leb : D -> D -> bool;
  eqb : D -> D -> bool
}.

(** The three functions of the C math library the header calls
    ([std::exp], [std::log], [std::log1p]). *)
Class Libm (D : Type) : Type := {
  exp : D -> D;
  log : D -> D;
  log1p : D -> D
}.

Declare Scope dbl_scope.
Delimit Scope dbl_scope with dbl.

Notation "x + y" := (add x y) : dbl_scope.
Notation "x - y" := (sub x y) : dbl_scope.
Notation "x * y" := (mul x y) : dbl_scope.
Notation "x / y" := (div x y) : dbl_scope.
Notation "- x" := (neg x) : dbl_scope.
Notation "x < y" := (ltb x y) : dbl_scope.
Notation "x > y" := (ltb y x) : dbl_scope.
Notation "x <= y" := (leb x y) : dbl_scope.
Notation "x >= y" := (leb y x) : dbl_scope.
Notation "x == y" := (eqb x y) (at level 70, no associativity) : dbl_scope.
Notation "# q" := (lit q%Q) (at level 1, q at level 0, format "# q") : dbl_scope.

(** ** The class hierarchy *)

(** [enum LossType]: the enumerators are the integers 0 to 5; a value of
    the enumeration type can hold other integers as well, which is what
    the [default] label of [Loss::create] is for. *)
Definition LossType := Z.
Definition SQUARE : LossType := 0%Z.
Definition LOGISTIC : LossType := 1%Z.
Definition LOG : LossType := 2%Z.
Definition HINGE : LossType := 3%Z.
Definition SQUARED_HINGE : LossType := 4%Z.
Definition CROSS_ENTROPY : LossType := 5%Z.

Section Losses.

Context {D : Type} {A : Arith D} {M : Libm D}.
Open Scope dbl_scope.
Open Scope string_scope.

(** [class Loss]: the table of the four virtual methods. *)
Record Loss : Type := {
  loss_type : string;
  evaluate : D -> D -> result D;
  gradient : D -> D -> result D;
  predict : D -> result D
}.

(** [std::max]: [(a < b) ? b : a]. *)
Definition std_max (a b : D) : D := if a < b then b else a.

(** *** SquareLoss *)

Definition SquareLoss_evaluate (pred truth : D) : result D :=
  let err := truth - pred in
  Ret (err * err).

Definition SquareLoss_gradient (pred truth : D) : result D :=
  Ret (- #2 * (truth - pred)).

Definition SquareLoss_predict (x : D) : result D := Ret x.

Definition SquareLoss : Loss := {|
  loss_type := "Square";
  evaluate := SquareLoss_evaluate;
  gradient := SquareLoss_gradient;
  predict := SquareLoss_predict
|}.

(** *** LogisticLoss *)

Definition LogisticLoss_evaluate (pred truth : D) : result D :=
  CHECK ((pred >= #0) && (pred <= #1)) "pred >= 0. && pred <= 1." ;;
  CHECK ((truth == #1) || (truth == #0)) "truth == 1. || truth == 0." ;;
  if truth == #0 then
    Ret (- log (std_max #0.0001 (#1 - pred)))
  else if truth == #1 then
    Ret (- log (std_max #0.0001 pred))
  else
    Ret #0.

Definition LogisticLoss_gradient (pred truth : D) : result D :=
  CHECK ((pred > #0) && (pred < #1)) "pred > 0. && pred < 1." ;;
  CHECK ((truth == #1) || (truth == #0)) "truth == 1. || truth == 0." ;;
  Ret ((pred - truth) / (pred * (#1 - pred))).

Definition LogisticLoss_predict (x : D) : result D := Ret x.

Definition LogisticLoss : Loss := {|
  loss_type := "Logistic";
  evaluate := LogisticLoss_evaluate;
  gradient := LogisticLoss_gradient;
  predict := LogisticLoss_predict
|}.

(** *** CrossEntropyLoss *)

Definition CrossEntropyLoss_evaluate (pred truth : D) : result D :=
  let ret := (#1 - truth) * pred in
  if pred > #18 then
    Ret (ret + exp (- pred))
  else if pred < #(-18) then
    Ret (ret - pred)
  else
    Ret (ret + log1p (exp (- pred))).

Definition CrossEntropyLoss_gradient (pred truth : D) : result D :=
  if pred < #(-18) then
    Ret (exp pred - truth)
  else if pred > #18 then
    Ret (#1 - truth)
  else
    Ret (#1 / (#1 + exp (- pred)) - truth).

Definition CrossEntropyLoss_predict (x : D) : result D :=
  Ret (#1 / (#1 + exp (- x))).

Definition CrossEntropyLoss : Loss := {|
  loss_type := "CrossEntropy";
  evaluate := CrossEntropyLoss_evaluate;
  gradient := CrossEntropyLoss_gradient;
  predict := CrossEntropyLoss_predict
|}.

(** *** LogLoss *)

Definition LogLoss_evaluate (pred truth : D) : result D :=
  let z := pred * truth in
  if z > #18 then
    Ret (exp (- z))
  else if z < #(-18) then
    Ret (- z)
  else
    Ret (log1p (exp (- z))).

Definition LogLoss_gradient (pred truth : D) : result D :=
  let z := pred * truth in
  if z > #18 then
    Ret (- truth * exp (- z))
  else if z < #(-18) then
    Ret (- truth)
  else
    Ret (- truth / (#1 + exp z)).

Definition LogLoss_predict (x : D) : result D := Ret x.

Definition LogLoss : Loss := {|
  loss_type := "Log";
  evaluate := LogLoss_evaluate;
  gradient := LogLoss_gradient;
  predict := LogLoss_predict
|}.

(** *** HingeLoss *)

Definition HingeLoss_evaluate (pred truth : D) : result D :=
  let z := pred * truth in
  if z > #1 then
    Ret #0
  else
    Ret (#1 - z).

Definition HingeLoss_gradient (pred truth : D) : result D :=
  let z := pred * truth in
  if z > #1 then
    Ret #0
  else
    Ret (- truth).

Definition HingeLoss_predict (x : D) : result D := Ret x.

Definition HingeLoss : Loss := {|
  loss_type := "Hinge";
  evaluate := HingeLoss_evaluate;
  gradient := HingeLoss_gradient;
  predict := HingeLoss_predict
|}.

(** *** SquaredHingeLoss *)

Definition SquaredHingeLoss_evaluate (pred truth : D) : result D :=
  let z := pred * truth in
  if z > #1 then
    Ret #0
  else
    let d := #1 - z in
    Ret (#0.5 * d * d).

Definition SquaredHingeLoss_gradient (pred truth : D) : result D :=
  let z := pred * truth in
  if z > #1 then
    Ret #0
  else
    Ret (- truth * (#1 - z)).

Definition SquaredHingeLoss_predict (x : D) : result D := Ret x.

Definition SquaredHingeLoss : Loss := {|
  loss_type := "SquaredHinge";
  evaluate := SquaredHingeLoss_evaluate;
  gradient := SquaredHingeLoss_gradient;
  predict := SquaredHingeLoss_predict
|}.

(** *** Loss::create *)

(** The [switch], one test per [case] label in the order of the header. *)
Definition create (lt : LossType) : Loss :=
  if (lt =? SQUARE)%Z then SquareLoss
  else if (lt =? LOGISTIC)%Z then LogisticLoss
  else if (lt =? CROSS_ENTROPY)%Z then CrossEntropyLoss
  else if (lt =? LOG)%Z then LogLoss
  else if (lt =? HINGE)%Z then HingeLoss
  else if (lt =? SQUARED_HINGE)%Z then SquaredHingeLoss
  else SquareLoss.

End Losses.

Arguments Loss D : clear implicits.


(** ** Instance: IEEE 754 binary64 *)

(** Conversion of an integer constant (exact up to [2^53]). *)
Definition of_int (z : Z) : float :=
  match z with
  | Z0 => 0%float
  | Zpos p => of_uint63 (Uint63.of_Z (Zpos p))
  | Zneg p => (- of_uint63 (Uint63.of_Z (Zpos p)))%float
  end.

(** The double nearest to the literal [n/d]: numerator and denominator
    convert exactly and the division rounds once, to nearest even. *)
Definition literal (q : Q) : float :=
  (of_int (Qnum q) / of_int (Zpos (Qden q)))%float.

#[global] Instance binary64 : Arith float := {|
  lit := literal;
  add := PrimFloat.add;
  sub := PrimFloat.sub;
  mul := PrimFloat.mul;
  div := PrimFloat.div;
  neg := PrimFloat.opp;
  ltb := PrimFloat.ltb;
  leb := PrimFloat.leb;
  eqb := PrimFloat.eqb
|}.

(** ** Instance: exact real arithmetic *)

Definition Rltb (a b : R) : bool := if Rlt_dec a b then true else false.
Definition Rleb (a b : R) : bool := if Rle_dec a b then true else false.
Definition Reqb (a b : R) : bool := if Req_dec_T a b then true else false.

#[global] Instance ideal : Arith R := {|
  lit := Q2R;
  add := Rplus;
  sub := Rminus;
  mul := Rmult;
  div := Rdiv;
  neg := Ropp;
  ltb := Rltb;
  leb := Rleb;
  eqb := Reqb
|}.

#[global] Instance ideal_libm : Libm R := {|
  exp := Rtrigo_def.exp;
  log := ln;
  log1p := fun x => ln (1 + x)
|}.

(** ** Vocabulary of the statements *)

(** The binary64 number 1, as mantissa and exponent. *)
Definition one_sf : spec_float := S754_finite false 4503599627370496 (-52).

(** [r] is a zero, an infinity or a finite number of sign [s] (and no NaN). *)
Definition signed_as (s : bool) (r : spec_float) : Prop :=
  match r with
  | S754_zero s' | S754_infinity s' | S754_finite s' _ _ => s' = s
  | S754_nan => False
  end.

(** The closed form the header's comment gives for the squared hinge loss,
    [1/2 * max(0, 1 - a*y)^2], computed in binary64 with the header's own
    [std::max] and the square as a product. *)
Definition squared_hinge_closed_form (pred truth : float) : float :=
  let m := std_max 0%float (1 - pred * truth)%float in
  (0.5 * (m * m))%float.

(** The same closed form with the product taken from left to right, the
    way [SquaredHingeLoss::evaluate] multiplies. *)
Definition squared_hinge_left_to_right (pred truth : float) : float :=
  let m := std_max 0%float (1 - pred * truth)%float in
  (0.5 * m * m)%float.

(** The three numeric methods of [l] all return on these arguments. *)
Definition never_fails {D : Type} (l : Loss D) (pred truth x : D) : bool :=
  is_Ret (evaluate l pred truth) && is_Ret (gradient l pred truth)
  && is_Ret (predict l x).

(** Strict order between the outcomes of two calls: both returned and the
    first value is smaller. *)
Definition returns_less {D : Type} {A : Arith D} (r1 r2 : result D) : Prop :=
  match r1, r2 with
  | Ret a, Ret b => ltb a b = true
  | _, _ => False
  end.

(** Weak order between the outcomes of two calls: both returned and the
    first value is not above the second. *)
Definition returns_leq {D : Type} {A : Arith D} (r1 r2 : result D) : Prop :=
  match r1, r2 with
  | Ret a, Ret b => leb a b = true
  | _, _ => False
  end.

(** [r] is a zero of either sign. *)
Definition is_zero_sf (r : spec_float) : Prop :=
  match r with S754_zero _ => True | _ => False end.

(** The value a call returned ([default] if it died). *)
Definition returned {D : Type} (r : result D) (default : D) : D :=
  match r with Ret v => v | Fatal _ => default end.

(** In exact arithmetic: the loss as a function of the prediction, for a
    fixed label, and the number [gradient] returns. *)
Definition loss_curve (l : Loss R) (truth pred : R) : R :=
  returned (evaluate l pred truth) 0%R.

Definition slope (l : Loss R) (pred truth : R) : R :=
  returned (gradient l pred truth) 0%R.

(** [x] is a positive finite double. *)
Definition positive_finite (x : float) : Prop :=
  exists m e, Prim2SF x = S754_finite false m e.

(** What the monotonicity of the logistic loss asks of libm: [log] is
    non-decreasing on the doubles of [[0.0001, 1]], the only arguments
    [LogisticLoss::evaluate] passes to it on [(0,1)]. *)
Definition log_nondecreasing (M : Libm float) : Prop :=
  forall x y : float,
    (0.0001 <=? x)%float = true -> (x <=? y)%float = true ->
    (y <=? 1)%float = true ->
    (log x <=? log y)%float = true.

(** Division by [2^k] rounded to nearest, ties to even. *)
Definition rne_div (X k : Z) : Z :=
  let m := (X / 2 ^ k)%Z in
  match (2 * (X mod 2 ^ k) ?= 2 ^ k)%Z with
  | Lt => m
  | Gt => (m + 1)%Z
  | Eq => if Z.even m then m else (m + 1)%Z
  end.

(** [mrs] is what [k] one-bit shifts leave of the integer [X]: the
    quotient by [2^k], whether the remainder reaches one half, and whether
    it is neither zero nor exactly one half. *)
Definition shr_inv (X k : Z) (mrs : shr_record) : Prop :=
  shr_m mrs = (X / 2 ^ k)%Z
  /\ shr_r mrs = (2 ^ k <=? 2 * (X mod 2 ^ k))%Z
  /\ shr_s mrs = negb (X mod 2 ^ k =? 0)%Z
                 && negb (2 * (X mod 2 ^ k) =? 2 ^ k)%Z.

(** * Facts about binary64 arithmetic *)

Section SpecFloatFacts.
Open Scope Z_scope.

Lemma shr_1_nonneg mrs : 0 <= shr_m mrs -> 0 <= shr_m (shr_1 mrs).
Proof.
  destruct mrs as [m r s]; destruct m as [|[p|p|]|[p|p|]]; simpl; lia.
Qed.

Lemma iter_shr_1_nonneg p : forall mrs,
  0 <= shr_m mrs -> 0 <= shr_m (SpecFloat.iter_pos shr_1 p mrs).
Proof.
  induction p as [p IH|p IH|]; intros mrs Hm; simpl.
  - apply IH, IH, shr_1_nonneg, Hm.
  - apply IH, IH, Hm.
  - apply shr_1_nonneg, Hm.
Qed.

Lemma shr_fexp_nonneg m e l :
  0 <= m -> 0 <= shr_m (fst (shr_fexp prec emax m e l)).
Proof.
  intros Hm. unfold shr_fexp, shr.
  assert (H0 : 0 <= shr_m (shr_record_of_loc m l))
    by (destruct l as [|[ | | ]]; exact Hm).
  destruct (fexp prec emax (Zdigits2 m + e) - e); simpl; auto.
  apply iter_shr_1_nonneg, H0.
Qed.

Lemma round_nearest_even_nonneg m l : 0 <= m -> 0 <= round_nearest_even m l.
Proof.
  intros Hm. destruct l as [|[ | | ]]; simpl; try lia.
  destruct (Z.even m); lia.
Qed.

Lemma binary_round_aux_signed s m e l :
  0 <= m -> signed_as s (binary_round_aux prec emax s m e l).
Proof.
  intros Hm. unfold binary_round_aux.
  pose proof (shr_fexp_nonneg m e l Hm) as H1.
  destruct (shr_fexp prec emax m e l) as [mrs' e']. simpl in H1.
  pose proof (shr_fexp_nonneg _ e' loc_Exact
                (round_nearest_even_nonneg _ (loc_of_shr_record mrs') H1)) as H2.
  destruct (shr_fexp prec emax _ e' loc_Exact) as [mrs'' e'']. simpl in H2.
  destruct (shr_m mrs'') as [|p|p]; simpl; try lia; auto.
  destruct (_ <=? _); simpl; auto.
Qed.

Lemma binary_round_signed s m e : signed_as s (binary_round prec emax s m e).
Proof.
  unfold binary_round.
  destruct (shl_align m e _) as [mz ez].
  apply binary_round_aux_signed. lia.
Qed.

Lemma binary_normalize_pos v e :
  0 < v -> signed_as false (binary_normalize prec emax v e false).
Proof. destruct v; try lia. intros _. apply binary_round_signed. Qed.

Lemma binary_normalize_neg v e :
  v < 0 -> binary_normalize prec emax v e false = S754_nan \/
           signed_as true (binary_normalize prec emax v e false).
Proof. destruct v; try lia. intros _. right. apply binary_round_signed. Qed.

Lemma shl_align_value mx ex ex' :
  ex' <= ex -> Zpos (fst (shl_align mx ex ex')) = Zpos mx * 2 ^ (ex - ex').
Proof.
  intros Hle. unfold shl_align.
  destruct (ex' - ex) as [|d|d] eqn:Hd; simpl; try lia.
  - replace (ex - ex') with 0 by lia. rewrite Z.pow_0_r. lia.
  - replace (ex - ex') with (Zpos d) by lia.
    change (Pos.iter xO mx d) with (shift_pos d mx).
    rewrite shift_pos_correct. apply Z.mul_comm.
Qed.

Lemma digits2_pos_bounds m :
  2 ^ (Zpos (digits2_pos m) - 1) <= Zpos m < 2 ^ Zpos (digits2_pos m).
Proof.
  induction m as [m IH|m IH|]; simpl digits2_pos.
  - rewrite Pos2Z.inj_succ. replace (Z.succ (Zpos (digits2_pos m)) - 1) with (Z.succ (Zpos (digits2_pos m) - 1)) by lia.
    rewrite !Z.pow_succ_r by lia. lia.
  - rewrite Pos2Z.inj_succ. replace (Z.succ (Zpos (digits2_pos m)) - 1) with (Z.succ (Zpos (digits2_pos m) - 1)) by lia.
    rewrite !Z.pow_succ_r by lia. lia.
  - simpl. lia.
Qed.

(** A valid binary64 mantissa has at most 53 bits, and exactly 53 above
    the subnormal range. *)
Lemma bounded_digits m e :
  SpecFloat.bounded prec emax m e = true ->
  Zpos m < 2 ^ 53 /\ (-1074 < e -> 2 ^ 52 <= Zpos m).
Proof.
  unfold SpecFloat.bounded, canonical_mantissa, fexp, SpecFloat.emin, prec, emax.
  intros Hb. apply andb_prop in Hb. destruct Hb as [Hc _].
  apply Z.eqb_eq in Hc.
  pose proof (digits2_pos_bounds m) as [Hlo Hhi].
  split.
  - apply Z.lt_le_trans with (1 := Hhi).
    apply Z.pow_le_mono_r; lia.
  - intros He. replace 52 with (Zpos (digits2_pos m) - 1) by lia. exact Hlo.
Qed.

Lemma zero_lt_signed r :
  signed_as false r -> r = S754_zero false \/ SFltb (S754_zero false) r = true.
Proof.
  destruct r as [s|s| |s m e]; simpl; intros Hs; try contradiction; subst; auto.
Qed.

Lemma zero_lt_neg r :
  r = S754_nan \/ signed_as true r -> SFltb (S754_zero false) r = false.
Proof.
  intros [->|Hs]; [reflexivity|].
  destruct r as [s|s| |s m e]; simpl in Hs; try contradiction; subst; reflexivity.
Qed.

Lemma SFltb_one_finite m e :
  SFltb one_sf (S754_finite false m e) =
  match -52 ?= e with
  | Lt => true
  | Gt => false
  | Eq => match (4503599627370496 ?= m)%positive with Lt => true | _ => false end
  end.
Proof.
  unfold SFltb, SFcompare, one_sf, Pos.compare.
  destruct (-52 ?= e); try reflexivity.
Qed.

(** The sign of [1 - z] follows the comparison of [z] with [1]. *)
Lemma SFsub_one_sign z :
  valid_binary z = true -> z <> S754_nan ->
  if SFltb one_sf z
  then SFltb (S754_zero false) (SF64sub one_sf z) = false
  else SF64sub one_sf z = S754_zero false \/
       SFltb (S754_zero false) (SF64sub one_sf z) = true.
Proof.
  intros Hv Hn.
  destruct z as [s|s| |s m e]; try congruence.
  - right. reflexivity.
  - destruct s; simpl; auto.
  - simpl in Hv. apply bounded_digits in Hv. destruct Hv as [Hhi Hlo].
    change (2 ^ 53) with 9007199254740992 in Hhi.
    change (2 ^ 52) with 4503599627370496 in Hlo.
    unfold SF64sub, SFsub, one_sf.
    assert (Hez1 : Z.min (-52) e <= -52) by apply Z.le_min_l.
    assert (Hez2 : Z.min (-52) e <= e) by apply Z.le_min_r.
    rewrite (shl_align_value _ (-52) _ Hez1).
    rewrite (shl_align_value m e _ Hez2).
    fold one_sf. unfold cond_Zopp.
    destruct s.
    + (* z < 0 *)
      change (SFltb one_sf (S754_finite true m e)) with false.
      cbv iota. apply zero_lt_signed, binary_normalize_pos.
      assert (0 < 4503599627370496 * 2 ^ (-52 - Z.min (-52) e))
        by (apply Z.mul_pos_pos; [reflexivity | apply Z.pow_pos_nonneg; lia]).
      assert (0 < Zpos m * 2 ^ (e - Z.min (-52) e))
        by (apply Z.mul_pos_pos; [reflexivity | apply Z.pow_pos_nonneg; lia]).
      lia.
    + rewrite SFltb_one_finite.
      destruct (Z.compare_spec (-52) e) as [He|He|He].
      * (* same exponent *)
        subst e. rewrite Z.min_id, Z.sub_diag, Z.pow_0_r, !Z.mul_1_r.
        change (4503599627370496 ?= m)%positive
          with (4503599627370496 ?= Zpos m).
        destruct (Z.compare_spec 4503599627370496 (Zpos m)) as [Hm|Hm|Hm].
        -- rewrite <- Hm. left. reflexivity.
        -- apply zero_lt_neg, binary_normalize_neg.
           apply Z.lt_sub_0. exact Hm.
        -- apply zero_lt_signed, binary_normalize_pos.
           apply Z.lt_0_sub. exact Hm.
      * (* 1 < z *)
        apply zero_lt_neg, binary_normalize_neg.
        rewrite Z.min_l by lia. rewrite Z.sub_diag, Z.pow_0_r, Z.mul_1_r.
        assert (H52 : 4503599627370496 <= Zpos m) by (apply Hlo; lia).
        assert (Hp : 2 ^ 1 <= 2 ^ (e - -52)) by (apply Z.pow_le_mono_r; lia).
        change (2 ^ 1) with 2 in Hp.
        assert (Zpos m * 2 <= Zpos m * 2 ^ (e - -52))
          by (apply Z.mul_le_mono_nonneg_l; lia).
        lia.
      * (* z < 1 *)
        apply zero_lt_signed, binary_normalize_pos.
        rewrite Z.min_r by lia. rewrite Z.sub_diag, Z.pow_0_r, Z.mul_1_r.
        assert (Hp : 2 ^ 1 <= 2 ^ (-52 - e)) by (apply Z.pow_le_mono_r; lia).
        change (2 ^ 1) with 2 in Hp.
        assert (4503599627370496 * 2 <= 4503599627370496 * 2 ^ (-52 - e))
          by (apply Z.mul_le_mono_nonneg_l; lia).
        lia.
Qed.


(** Comparison is antisymmetric, and reflexive away from NaN. *)
Lemma SFcompare_antisym x y :
  SFcompare y x = option_map CompOpp (SFcompare x y).
Proof.
  destruct x as [s1|s1| |s1 m1 e1], y as [s2|s2| |s2 m2 e2]; simpl;
    try reflexivity;
    try (destruct s1, s2; reflexivity);
    try (destruct s1; reflexivity);
    try (destruct s2; reflexivity).
  destruct s1, s2; simpl; try reflexivity;
    rewrite (Z.compare_antisym e1 e2), (ZC4 m2 m1);
    destruct (e1 ?= e2); simpl; try reflexivity;
    destruct (Pos.compare_cont Eq m1 m2); reflexivity.
Qed.

Lemma SFcompare_refl x : x <> S754_nan -> SFcompare x x = Some Eq.
Proof.
  destruct x as [s|s| |s m e]; simpl; intros Hn; try congruence.
  - destruct s; reflexivity.
  - destruct s; rewrite Z.compare_refl, Pcompare_refl; reflexivity.
Qed.

Lemma SFltb_antisym x y : SFltb x y = true -> SFltb y x = false.
Proof.
  unfold SFltb. rewrite (SFcompare_antisym x y).
  destruct (SFcompare x y) as [[ | | ]|]; simpl; congruence.
Qed.

Lemma SFltb_irrefl x : SFltb x x = false.
Proof.
  destruct (SFltb x x) eqn:E; [|reflexivity].
  rewrite (SFltb_antisym _ _ E) in E. discriminate.
Qed.

Lemma SFleb_of_not_ltb x y :
  x <> S754_nan -> y <> S754_nan -> SFltb x y = false -> SFleb y x = true.
Proof.
  unfold SFltb, SFleb. rewrite (SFcompare_antisym x y).
  destruct x as [s1|s1| |s1 m1 e1], y as [s2|s2| |s2 m2 e2]; try congruence;
    intros _ _; destruct (SFcompare _ _) as [[ | | ]|] eqn:E; simpl; try congruence;
    simpl in E; try discriminate;
    destruct s1; try destruct s2; discriminate.
Qed.

(** Rounding commutes with a change of sign (round to nearest even is
    symmetric). *)
Lemma SFopp_binary_round_aux s m e l :
  SFopp (binary_round_aux prec emax s m e l) =
  binary_round_aux prec emax (negb s) m e l.
Proof.
  unfold binary_round_aux.
  destruct (shr_fexp prec emax m e l) as [mrs' e'].
  destruct (shr_fexp prec emax _ e' loc_Exact) as [mrs'' e''].
  destruct (shr_m mrs''); try reflexivity.
  destruct (_ <=? _); reflexivity.
Qed.

Lemma SFmul_opp_l x y :
  SF64mul (SFopp x) y = SFopp (SF64mul x y).
Proof.
  unfold SF64mul.
  destruct x as [s1|s1| |s1 m1 e1], y as [s2|s2| |s2 m2 e2]; simpl;
    try reflexivity; try (destruct s1, s2; reflexivity).
  rewrite SFopp_binary_round_aux. destruct s1, s2; reflexivity.
Qed.

Lemma SFdiv_opp_l x y :
  SF64div (SFopp x) y = SFopp (SF64div x y).
Proof.
  unfold SF64div.
  destruct x as [s1|s1| |s1 m1 e1], y as [s2|s2| |s2 m2 e2]; simpl;
    try reflexivity; try (destruct s1, s2; reflexivity).
  destruct (SFdiv_core_binary prec emax (Z.pos m1) e1 (Z.pos m2) e2) as [[mz ez] lz].
  rewrite SFopp_binary_round_aux. destruct s1, s2; reflexivity.
Qed.

End SpecFloatFacts.

(** * The loss functions on binary64 *)

Section Binary64.

Open Scope float_scope.

(** ** The literals of the header on binary64 *)

(** Each literal denotes the nearest double; [0.0001] is not representable
    and becomes [7378697629483821 * 2^-66], within half a unit in the last
    place of one ten-thousandth. *)
Lemma binary64_literals :
  literal 0 = 0 /\ literal 1 = 1 /\ literal 2 = 2 /\ literal 18 = 18
  /\ literal (-18) = -18 /\ literal 0.5 = 0.5
  /\ literal 0.0001 = 0x1.a36e2eb1c432dp-14
  /\ Prim2SF (literal 0.0001) = S754_finite false 7378697629483821 (-66)
  /\ (2 * Z.abs (7378697629483821 * 10000 - 2 ^ 66) <= 10000)%Z.
Proof.
  repeat split. vm_compute. discriminate.
Qed.

(** ** From [float] to its specification and back *)

Lemma Prim2SF_not_nan z : is_nan z = false -> Prim2SF z <> S754_nan.
Proof.
  intros Hz E. apply (f_equal SF2Prim) in E.
  rewrite SF2Prim_Prim2SF in E. subst z. discriminate Hz.
Qed.

Lemma ltb_antisym x y : (x <? y) = true -> (y <? x) = false.
Proof. rewrite !ltb_spec. apply SFltb_antisym. Qed.

Lemma ltb_irrefl x : (x <? x) = false.
Proof. rewrite ltb_spec. apply SFltb_irrefl. Qed.

Lemma leb_of_not_ltb x y :
  is_nan x = false -> is_nan y = false -> (x <? y) = false -> (y <=? x) = true.
Proof.
  intros Hx Hy. rewrite ltb_spec, leb_spec.
  apply SFleb_of_not_ltb; apply Prim2SF_not_nan; assumption.
Qed.

Lemma leb_refl x : is_nan x = false -> (x <=? x) = true.
Proof.
  intros Hx. rewrite leb_spec. unfold SFleb.
  rewrite SFcompare_refl by (apply Prim2SF_not_nan; exact Hx). reflexivity.
Qed.

Lemma ltb_leb x y : (x <? y) = true -> (x <=? y) = true.
Proof.
  rewrite ltb_spec, leb_spec. unfold SFltb, SFleb.
  destruct (SFcompare _ _) as [[ | | ]|]; congruence.
Qed.

(** A sign moves out of a product and out of a quotient, so the header's
    [- a * b] and [- a / b] are also [-(a * b)] and [-(a / b)]. *)
Lemma opp_mul_l x y : - x * y = - (x * y).
Proof.
  apply Prim2SF_inj.
  rewrite mul_spec, !opp_spec, mul_spec. apply SFmul_opp_l.
Qed.

Lemma opp_div_l x y : - x / y = - (x / y).
Proof.
  apply Prim2SF_inj.
  rewrite div_spec, !opp_spec, div_spec. apply SFdiv_opp_l.
Qed.

(** The sign of [1 - z]: negative or NaN-free non-positive above the
    margin, [+0] or positive below it. *)
Lemma sub_one_sign z :
  is_nan z = false ->
  if 1 <? z then (0 <? 1 - z) = false
  else 1 - z = 0 \/ (0 <? 1 - z) = true.
Proof.
  intros Hz.
  pose proof (SFsub_one_sign (Prim2SF z) (Prim2SF_valid z)
                (Prim2SF_not_nan z Hz)) as H.
  rewrite !ltb_spec, sub_spec.
  change (Prim2SF 1) with one_sf. change (Prim2SF 0) with (S754_zero false).
  destruct (SFltb one_sf (Prim2SF z)); [exact H|].
  destruct H as [H|H]; [left|right; exact H].
  apply Prim2SF_inj. rewrite sub_spec. exact H.
Qed.

(** [std::max(0, 1 - z)] selects the branch of the hinge family. *)
Lemma std_max_margin z :
  is_nan z = false ->
  std_max 0 (1 - z) = if 1 <? z then 0 else 1 - z.
Proof.
  intros Hz. pose proof (sub_one_sign z Hz) as H.
  unfold std_max. cbn.
  destruct (1 <? z).
  - rewrite H. reflexivity.
  - destruct H as [H|H]; rewrite H; [|reflexivity].
    destruct (0 <? 0); reflexivity.
Qed.

(** ** The variants, method by method *)

Context {M : Libm float}.

(** C1. CrossEntropy on binary64, for every double [pred], [truth], [x]
    (NaN and the infinities included): [evaluate] is
    [(1-truth)*pred + exp(-pred)] when [pred > 18],
    [(1-truth)*pred - pred] when [pred < -18] and
    [(1-truth)*pred + log1p(exp(-pred))] otherwise; [gradient] is
    [1-truth] when [pred > 18], [exp(pred)-truth] when [pred < -18] and
    [1/(1+exp(-pred)) - truth] otherwise; [predict x] is
    [1/(1+exp(-x))].  The header tests [pred < -18] first in [gradient];
    the two tests exclude each other, so the order is immaterial. *)
Theorem CrossEntropy_formulas (pred truth x : float) :
  evaluate CrossEntropyLoss pred truth =
    Ret (if 18 <? pred then (1 - truth) * pred + exp (- pred)
         else if pred <? -18 then (1 - truth) * pred - pred
         else (1 - truth) * pred + log1p (exp (- pred)))
  /\ gradient CrossEntropyLoss pred truth =
    Ret (if 18 <? pred then 1 - truth
         else if pred <? -18 then exp pred - truth
         else 1 / (1 + exp (- pred)) - truth)
  /\ predict CrossEntropyLoss x = Ret (1 / (1 + exp (- x))).
Proof.
  repeat split.
  - cbn. unfold CrossEntropyLoss_evaluate. cbn.
    destruct (18 <? pred); [reflexivity|].
    destruct (pred <? -18); reflexivity.
  - cbn. unfold CrossEntropyLoss_gradient. cbn.
    destruct (pred <? -18) eqn:Hlo.
    + assert (Hhi : (18 <? pred) = false).
      { destruct (18 <? pred) eqn:Hhi; [|reflexivity].
        rewrite ltb_spec in Hlo, Hhi.
        change (Prim2SF (-18)) with (S754_finite true 5066549580791808 (-48)) in Hlo.
        change (Prim2SF 18) with (S754_finite false 5066549580791808 (-48)) in Hhi.
        destruct (Prim2SF pred) as [s|s| |s m e]; try discriminate;
          destruct s; discriminate. }
      rewrite Hhi. reflexivity.
    + destruct (18 <? pred); reflexivity.
Qed.

(** C2. Log on binary64, for every double [pred], [truth], with
    [z = pred*truth]: [evaluate] is [exp(-z)] when [z > 18], [-z] when
    [z < -18] and [log1p(exp(-z))] otherwise; [gradient] is
    [-truth*exp(-z)] when [z > 18], [-truth] when [z < -18] and
    [-truth/(1+exp(z))] otherwise (the sign may be read on [truth] or on
    the whole product or quotient: the two agree); [predict] is the
    identity. *)
Theorem Log_formulas (pred truth x : float) :
  let z := pred * truth in
  evaluate LogLoss pred truth =
    Ret (if 18 <? z then exp (- z)
         else if z <? -18 then - z
         else log1p (exp (- z)))
  /\ gradient LogLoss pred truth =
    Ret (if 18 <? z then - (truth * exp (- z))
         else if z <? -18 then - truth
         else - (truth / (1 + exp z)))
  /\ gradient LogLoss pred truth =
    Ret (if 18 <? z then - truth * exp (- z)
         else if z <? -18 then - truth
         else - truth / (1 + exp z))
  /\ predict LogLoss x = Ret x.
Proof.
  intros z. repeat split.
  - cbn. unfold LogLoss_evaluate. cbn. fold z.
    destruct (18 <? z); [reflexivity|].
    destruct (z <? -18); reflexivity.
  - cbn. unfold LogLoss_gradient. cbn. fold z.
    rewrite opp_mul_l, opp_div_l.
    destruct (18 <? z); [reflexivity|].
    destruct (z <? -18); reflexivity.
  - cbn. unfold LogLoss_gradient. cbn. fold z.
    destruct (18 <? z); [reflexivity|].
    destruct (z <? -18); reflexivity.
Qed.

(** C3. Logistic on binary64.  When [pred] lies in [[0,1]] and [truth] is
    0 or 1 (compared as the header compares them, so [-0.0] counts as 0),
    [evaluate] returns [-log(max(1e-4, 1-pred))] for [truth = 0] and
    [-log(max(1e-4, pred))] for [truth = 1], where [max(1e-4, x)] is [x]
    when [0.0001 < x] and the floor [0.0001] otherwise; at the two ends
    [log] receives the floor: [evaluate(1,0) = evaluate(0,1) =
    -log(0.0001)].  When [pred] lies in the open interval [(0,1)] and
    [truth] is 0 or 1, [gradient] returns [(pred-truth)/(pred*(1-pred))]. *)
Theorem Logistic_formulas (pred truth : float) :
  (truth =? 0) || (truth =? 1) = true ->
  ((0 <=? pred) && (pred <=? 1) = true ->
     evaluate LogisticLoss pred truth =
       Ret (if truth =? 0
            then - log (if 0.0001 <? 1 - pred then 1 - pred else 0.0001)
            else - log (if 0.0001 <? pred then pred else 0.0001)))
  /\ ((0 <? pred) && (pred <? 1) = true ->
     gradient LogisticLoss pred truth =
       Ret ((pred - truth) / (pred * (1 - pred))))
  /\ evaluate LogisticLoss 1 0 = Ret (- log 0.0001)
  /\ evaluate LogisticLoss 0 1 = Ret (- log 0.0001).
Proof.
  intros Ht. split; [|split; [|split; reflexivity]]; intros Hp.
  - cbn. unfold LogisticLoss_evaluate, std_max. cbn.
    rewrite Hp. cbn. rewrite orb_comm, Ht. cbn.
    destruct (truth =? 0) eqn:H0; [reflexivity|].
    cbn in Ht. rewrite Ht. reflexivity.
  - cbn. unfold LogisticLoss_gradient. cbn.
    rewrite Hp. cbn. rewrite orb_comm, Ht. reflexivity.
Qed.

(** C4. Logistic on binary64: [evaluate] dies in a [CHECK] exactly when
    [pred] is outside [[0,1]] or [truth] is neither 0 nor 1, and
    [gradient] exactly when [pred] is outside the open [(0,1)] or [truth]
    is neither 0 nor 1 (a NaN is outside every interval and equal to
    nothing).  In particular both die for [truth = 0.5], whatever [pred],
    and for [pred = 1.5], whatever [truth]. *)
Theorem Logistic_fatal_iff (pred truth : float) :
  is_Fatal (evaluate LogisticLoss pred truth) =
    negb ((0 <=? pred) && (pred <=? 1)) || negb ((truth =? 0) || (truth =? 1))
  /\ is_Fatal (gradient LogisticLoss pred truth) =
    negb ((0 <? pred) && (pred <? 1)) || negb ((truth =? 0) || (truth =? 1))
  /\ is_Fatal (evaluate LogisticLoss pred 0.5) = true
  /\ is_Fatal (gradient LogisticLoss pred 0.5) = true
  /\ is_Fatal (evaluate LogisticLoss 1.5 truth) = true
  /\ is_Fatal (gradient LogisticLoss 1.5 truth) = true.
Proof.
  repeat split.
  - cbn. unfold LogisticLoss_evaluate. cbn.
    destruct ((0 <=? pred) && (pred <=? 1)); cbn; [|reflexivity].
    destruct (truth =? 0); cbn; [rewrite orb_true_r; reflexivity|].
    destruct (truth =? 1); reflexivity.
  - cbn. unfold LogisticLoss_gradient. cbn.
    destruct ((0 <? pred) && (pred <? 1)); cbn; [|reflexivity].
    rewrite (orb_comm (truth =? 1)).
    destruct ((truth =? 0) || (truth =? 1)); reflexivity.
  - cbn. unfold LogisticLoss_evaluate. cbn.
    destruct ((0 <=? pred) && (pred <=? 1)); reflexivity.
  - cbn. unfold LogisticLoss_gradient. cbn.
    destruct ((0 <? pred) && (pred <? 1)); reflexivity.
Qed.

(** C6. Square on binary64, for every double (finite or not): [evaluate]
    is [(truth-pred)*(truth-pred)] and [gradient] is [-2*(truth-pred)],
    which is also [-(2*(truth-pred))]; [evaluate(3,5) = 4] and
    [gradient(3,5) = -4]. *)
Theorem Square_formulas (pred truth : float) :
  evaluate SquareLoss pred truth = Ret ((truth - pred) * (truth - pred))
  /\ gradient SquareLoss pred truth = Ret (-2 * (truth - pred))
  /\ gradient SquareLoss pred truth = Ret (- (2 * (truth - pred)))
  /\ evaluate SquareLoss 3 5 = Ret 4
  /\ gradient SquareLoss 3 5 = Ret (-4).
Proof.
  repeat split.
  cbn. unfold SquareLoss_gradient. cbn.
  rewrite <- opp_mul_l. reflexivity.
Qed.

(** C7. Hinge on binary64, for every double [pred] and [truth] (so for
    [truth] = -1 and 1), with [z = pred*truth]: if [z > 1] then [evaluate]
    and [gradient] are 0, otherwise [evaluate] is [1 - z] and [gradient]
    is [-truth]; [evaluate(2,1) = 0], [evaluate(0,1) = 1],
    [gradient(0,1) = -1]. *)
Theorem Hinge_formulas (pred truth : float) :
  let z := pred * truth in
  evaluate HingeLoss pred truth = Ret (if 1 <? z then 0 else 1 - z)
  /\ gradient HingeLoss pred truth = Ret (if 1 <? z then 0 else - truth)
  /\ evaluate HingeLoss 2 1 = Ret 0
  /\ evaluate HingeLoss 0 1 = Ret 1
  /\ gradient HingeLoss 0 1 = Ret (-1).
Proof.
  intros z. repeat split.
  - cbn. unfold HingeLoss_evaluate. cbn. fold z.
    destruct (1 <? z); reflexivity.
  - cbn. unfold HingeLoss_gradient. cbn. fold z.
    destruct (1 <? z); reflexivity.
Qed.

(** C10. On binary64 the five variants other than Logistic never die: for
    every double [pred], [truth] and [x] (NaN, infinities and labels
    outside the documented ranges included) [evaluate], [gradient] and
    [predict] of Square, CrossEntropy, Log, Hinge and SquaredHinge
    return a double.  Logistic does validate: it dies on a NaN. *)
Theorem only_Logistic_validates (pred truth x : float) :
  never_fails SquareLoss pred truth x = true
  /\ never_fails CrossEntropyLoss pred truth x = true
  /\ never_fails LogLoss pred truth x = true
  /\ never_fails HingeLoss pred truth x = true
  /\ never_fails SquaredHingeLoss pred truth x = true
  /\ is_Fatal (evaluate LogisticLoss nan truth) = true
  /\ is_Fatal (gradient LogisticLoss nan truth) = true.
Proof.
  unfold never_fails. cbn.
  unfold CrossEntropyLoss_evaluate, CrossEntropyLoss_gradient,
    LogLoss_evaluate, LogLoss_gradient, HingeLoss_evaluate,
    HingeLoss_gradient, SquaredHingeLoss_evaluate,
    SquaredHingeLoss_gradient. cbn.
  destruct (18 <? pred), (pred <? -18), (18 <? pred * truth),
    (pred * truth <? -18), (1 <? pred * truth); repeat split.
Qed.

End Binary64.

Lemma Logistic_formulas_witness :
  ((1 =? 0) || (1 =? 1) = true)%float
  /\ ((0 <=? 0x1p-20) && (0x1p-20 <=? 1) = true)%float
  /\ ((0 <? 0x1p-20) && (0x1p-20 <? 1) = true)%float
  /\ (forall M : Libm float,
        evaluate LogisticLoss 0x1p-20%float 1%float = Ret (- log 0.0001)%float
        /\ gradient LogisticLoss 0x1p-20%float 1%float = Ret (-1048576)%float).
Proof.
  split; [reflexivity|]. split; [reflexivity|]. split; [reflexivity|].
  intros M. split.
  - exact (proj1 (@Logistic_formulas M 0x1p-20%float 1%float eq_refl)
             eq_refl).
  - exact (proj1 (proj2 (@Logistic_formulas M 0x1p-20%float 1%float eq_refl))
             eq_refl).
Defined.

(** ** SquaredHinge and the closed form of its comment *)

Section SquaredHingeBinary64.

Open Scope float_scope.

Lemma is_nan_eq z : is_nan z = true -> z = nan.
Proof.
  intros Hz. apply Prim2SF_inj. unfold Prim2SF at 1. rewrite Hz. reflexivity.
Qed.

(** Away from a NaN margin the loss is [0.5 * m * m], [m = max(0, 1-z)]. *)
Lemma SquaredHinge_left_to_right (pred truth : float) :
  is_nan (pred * truth) = false ->
  evaluate SquaredHingeLoss pred truth =
    Ret (squared_hinge_left_to_right pred truth).
Proof.
  intros Hz. unfold squared_hinge_left_to_right.
  rewrite (std_max_margin _ Hz).
  cbn. unfold SquaredHingeLoss_evaluate. cbn.
  destruct (1 <? pred * truth); reflexivity.
Qed.

(** A NaN margin comes back as NaN. *)
Lemma SquaredHinge_nan (pred truth : float) :
  is_nan (pred * truth) = true ->
  evaluate SquaredHingeLoss pred truth = Ret nan.
Proof.
  intros Hz. apply is_nan_eq in Hz.
  cbn. unfold SquaredHingeLoss_evaluate. cbn. rewrite Hz. reflexivity.
Qed.

Lemma SquaredHinge_at_margin (pred truth : float) :
  pred * truth = 1 -> evaluate SquaredHingeLoss pred truth = Ret 0.
Proof.
  intros Hz. cbn. unfold SquaredHingeLoss_evaluate. cbn. rewrite Hz.
  reflexivity.
Qed.

End SquaredHingeBinary64.

(** * The loss functions in exact real arithmetic *)

(** The literals of the header, read exactly. *)
Lemma ideal_literals :
  (Q2R 0 = 0 /\ Q2R 1 = 1 /\ Q2R 2 = 2 /\ Q2R 18 = 18 /\ Q2R (-18) = -18
  /\ Q2R 0.5 = / 2 /\ Q2R 0.0001 = / 10000)%R.
Proof. unfold Q2R; cbn [Qnum Qden]; repeat split; lra. Qed.

Ltac use_literals :=
  destruct ideal_literals as (L0 & L1 & L2 & L18 & Lm18 & Lhalf & Leps);
  rewrite ?L0, ?L1, ?L2, ?L18, ?Lm18, ?Lhalf, ?Leps.

Section Ideal.

Open Scope R_scope.

Lemma Rltb_true a b : Rltb a b = true <-> a < b.
Proof.
  unfold Rltb. destruct (Rlt_dec a b) as [H|H]; split; intros H';
    try assumption; try reflexivity; try discriminate; contradiction.
Qed.

Lemma Rltb_false a b : Rltb a b = false <-> b <= a.
Proof.
  unfold Rltb. destruct (Rlt_dec a b) as [H|H]; split; intros H';
    try reflexivity; try discriminate; lra.
Qed.

Lemma Rleb_true a b : Rleb a b = true <-> a <= b.
Proof.
  unfold Rleb. destruct (Rle_dec a b) as [H|H]; split; intros H';
    try assumption; try reflexivity; try discriminate; contradiction.
Qed.

Lemma Reqb_true a b : Reqb a b = true <-> a = b.
Proof.
  unfold Reqb. destruct (Req_dec_T a b) as [H|H]; split; intros H';
    try assumption; try reflexivity; try discriminate; contradiction.
Qed.

Lemma Reqb_false a b : Reqb a b = false <-> a <> b.
Proof.
  unfold Reqb. destruct (Req_dec_T a b) as [H|H]; split; intros H';
    try assumption; try reflexivity; try discriminate; contradiction.
Qed.

Lemma std_max_Rmax a b : std_max a b = Rmax a b.
Proof.
  unfold std_max. cbn. unfold Rltb, Rmax.
  destruct (Rlt_dec a b), (Rle_dec a b); try reflexivity; lra.
Qed.


(** *** SquaredHinge *)

Lemma Ideal_SquaredHinge_closed_form (pred truth : R) :
  evaluate SquaredHingeLoss pred truth =
    Ret (/ 2 * (Rmax 0 (1 - pred * truth))²).
Proof.
  cbn. unfold SquaredHingeLoss_evaluate. cbn -[Q2R]. use_literals.
  unfold Rltb, Rsqr. destruct (Rlt_dec 1 (pred * truth)) as [H|H].
  - rewrite Rmax_left by lra. f_equal. lra.
  - rewrite Rmax_right by lra. f_equal. lra.
Qed.

Lemma Ideal_SquaredHinge_at_margin (pred truth : R) :
  pred * truth = 1 -> evaluate SquaredHingeLoss pred truth = Ret 0.
Proof.
  intros Hz. rewrite Ideal_SquaredHinge_closed_form, Hz.
  rewrite Rmax_left by lra. unfold Rsqr. f_equal. lra.
Qed.

Lemma Ideal_SquaredHinge_limit (eps : R) :
  0 < eps ->
  exists delta, 0 < delta /\
    forall pred truth, Rabs (pred * truth - 1) < delta ->
      exists v, evaluate SquaredHingeLoss pred truth = Ret v /\ Rabs v < eps.
Proof.
  intros Heps. exists (Rmin 1 eps). split.
  - apply Rmin_glb_lt; lra.
  - intros pred truth Hz.
    exists (/ 2 * (Rmax 0 (1 - pred * truth))²). split.
    + apply Ideal_SquaredHinge_closed_form.
    + assert (H1 : Rabs (pred * truth - 1) < 1)
        by (eapply Rlt_le_trans; [exact Hz | apply Rmin_l]).
      assert (H2 : Rabs (pred * truth - 1) < eps)
        by (eapply Rlt_le_trans; [exact Hz | apply Rmin_r]).
      apply Rabs_def2 in H1. apply Rabs_def2 in H2.
      unfold Rsqr, Rmax. destruct (Rle_dec 0 (1 - pred * truth)) as [H|H].
      * apply Rabs_def1; nra.
      * apply Rabs_def1; lra.
Qed.

(** *** Logistic *)

Lemma Ideal_Logistic_evaluate_1 (p : R) :
  0 <= p <= 1 ->
  evaluate LogisticLoss p 1 = Ret (- ln (Rmax (/ 10000) p)).
Proof.
  intros [Hp0 Hp1]. cbn. unfold LogisticLoss_evaluate. cbn -[Q2R std_max].
  rewrite !std_max_Rmax. use_literals.
  rewrite (proj2 (Rleb_true 0 p) Hp0), (proj2 (Rleb_true p 1) Hp1).
  rewrite (proj2 (Reqb_true 1 1) eq_refl).
  rewrite (proj2 (Reqb_false 1 0)) by lra. reflexivity.
Qed.

Lemma Ideal_Logistic_evaluate_0 (p : R) :
  0 <= p <= 1 ->
  evaluate LogisticLoss p 0 = Ret (- ln (Rmax (/ 10000) (1 - p))).
Proof.
  intros [Hp0 Hp1]. cbn. unfold LogisticLoss_evaluate. cbn -[Q2R std_max].
  rewrite !std_max_Rmax. use_literals.
  rewrite (proj2 (Rleb_true 0 p) Hp0), (proj2 (Rleb_true p 1) Hp1).
  rewrite (proj2 (Reqb_true 0 0) eq_refl).
  rewrite orb_true_r. reflexivity.
Qed.

(** In exact arithmetic, for [0 < p1 < p2 < 1]: the loss for label 1 is
    strictly decreasing from the floor on and the loss for label 0
    strictly increasing up to the floor; where the floor is active the
    loss is constant; over the whole of [(0,1)] the two are only
    non-increasing and non-decreasing. *)
Lemma Ideal_Logistic_monotone (p1 p2 : R) :
  0 < p1 -> p1 < p2 -> p2 < 1 ->
  (/ 10000 <= p1 ->
     returns_less (evaluate LogisticLoss p2 1) (evaluate LogisticLoss p1 1))
  /\ (p2 <= 1 - / 10000 ->
     returns_less (evaluate LogisticLoss p1 0) (evaluate LogisticLoss p2 0))
  /\ (p2 <= / 10000 ->
     evaluate LogisticLoss p1 1 = evaluate LogisticLoss p2 1)
  /\ (1 - / 10000 <= p1 ->
     evaluate LogisticLoss p1 0 = evaluate LogisticLoss p2 0)
  /\ ~ returns_less (evaluate LogisticLoss p1 1) (evaluate LogisticLoss p2 1)
  /\ ~ returns_less (evaluate LogisticLoss p2 0) (evaluate LogisticLoss p1 0).
Proof.
  intros H0 H12 H1.
  rewrite !Ideal_Logistic_evaluate_1, !Ideal_Logistic_evaluate_0 by lra.
  unfold returns_less. cbn -[Rmax].
  repeat split.
  - intros Hf. apply Rltb_true. apply Ropp_lt_contravar.
    rewrite !Rmax_right by lra. apply ln_increasing; lra.
  - intros Hf. apply Rltb_true. apply Ropp_lt_contravar.
    rewrite !Rmax_right by lra. apply ln_increasing; lra.
  - intros Hf. rewrite !Rmax_left by lra. reflexivity.
  - intros Hf. rewrite !Rmax_left by lra. reflexivity.
  - intros Hlt. apply Rltb_true in Hlt. apply Ropp_lt_cancel in Hlt.
    assert (Hm : Rmax (/ 10000) p1 <= Rmax (/ 10000) p2)
      by (apply Rle_max_compat_l; lra).
    destruct Hm as [Hm|Hm].
    + apply ln_increasing in Hm; [lra|].
      eapply Rlt_le_trans; [|apply Rmax_l]. lra.
    + rewrite Hm in Hlt. lra.
  - intros Hlt. apply Rltb_true in Hlt. apply Ropp_lt_cancel in Hlt.
    assert (Hm : Rmax (/ 10000) (1 - p2) <= Rmax (/ 10000) (1 - p1))
      by (apply Rle_max_compat_l; lra).
    destruct Hm as [Hm|Hm].
    + apply ln_increasing in Hm; [lra|].
      eapply Rlt_le_trans; [|apply Rmax_l]. lra.
    + rewrite Hm in Hlt. lra.
Qed.

End Ideal.

(** * Logistic on binary64: the loss as a function of the prediction *)

(** ** Rounding to nearest even, on integers *)

Section RoundToNearestEven.

Open Scope Z_scope.

Lemma rne_div_scale X k j :
  0 <= k -> 0 <= j -> rne_div (X * 2 ^ j) (k + j) = rne_div X k.
Proof.
  intros Hk Hj. unfold rne_div.
  assert (Hpk : 0 < 2 ^ k) by (apply Z.pow_pos_nonneg; lia).
  assert (Hpj : 0 < 2 ^ j) by (apply Z.pow_pos_nonneg; lia).
  rewrite Z.pow_add_r by assumption.
  rewrite Z.div_mul_cancel_r by lia.
  rewrite Z.mul_mod_distr_r by lia.
  replace (2 * (X mod 2 ^ k * 2 ^ j)) with (2 * (X mod 2 ^ k) * 2 ^ j) by ring.
  rewrite <- Zmult_compare_compat_r by lia. reflexivity.
Qed.

Lemma rne_div_bounds X k :
  0 <= k -> X / 2 ^ k <= rne_div X k <= X / 2 ^ k + 1.
Proof.
  intros Hk. unfold rne_div.
  destruct (_ ?= _); [destruct (Z.even _)| |]; lia.
Qed.

Lemma rne_div_mono X Y k :
  0 <= k -> X <= Y -> rne_div X k <= rne_div Y k.
Proof.
  intros Hk HXY.
  assert (Hp : 0 < 2 ^ k) by (apply Z.pow_pos_nonneg; lia).
  pose proof (Z.div_le_mono X Y (2 ^ k) Hp HXY) as Hm.
  pose proof (rne_div_bounds X k Hk) as BX.
  pose proof (rne_div_bounds Y k Hk) as BY.
  destruct (Z.eq_dec (X / 2 ^ k) (Y / 2 ^ k)) as [E|E]; [|lia].
  pose proof (Z.div_mod X (2 ^ k) ltac:(lia)) as EX.
  pose proof (Z.div_mod Y (2 ^ k) ltac:(lia)) as EY.
  assert (Hr : X mod 2 ^ k <= Y mod 2 ^ k) by (rewrite E in EX; lia).
  unfold rne_div. rewrite E.
  destruct (Z.compare_spec (2 * (X mod 2 ^ k)) (2 ^ k));
    destruct (Z.compare_spec (2 * (Y mod 2 ^ k)) (2 ^ k));
    destruct (Z.even (Y / 2 ^ k)); lia.
Qed.

(** What [k] one-bit shifts leave of an integer [X]: the quotient, and the
    position of the remainder with respect to one half. *)
Lemma shr_1_inv X k mrs :
  0 <= X -> 0 <= k -> shr_inv X k mrs -> shr_inv X (k + 1) (shr_1 mrs).
Proof.
  intros HX Hk (Hm & Hr & Hs).
  assert (Hp : 0 < 2 ^ k) by (apply Z.pow_pos_nonneg; lia).
  pose proof (Z.mod_pos_bound X (2 ^ k) Hp) as Hrem.
  assert (Hq : 0 <= X / 2 ^ k) by (apply Z.div_pos; lia).
  assert (Hdiv : X / 2 ^ (k + 1) = X / 2 ^ k / 2).
  { rewrite Z.pow_add_r, Z.pow_1_r by lia. rewrite Z.div_div by lia.
    reflexivity. }
  assert (Hmod : X mod 2 ^ (k + 1) = X mod 2 ^ k + 2 ^ k * ((X / 2 ^ k) mod 2)).
  { rewrite Z.pow_add_r, Z.pow_1_r by lia. apply Z.rem_mul_r; lia. }
  pose proof (Z.div_mod (X / 2 ^ k) 2 ltac:(lia)) as Eq2.
  pose proof (Z.mod_pos_bound (X / 2 ^ k) 2 ltac:(lia)) as Hb.
  assert (Hpk1 : 2 ^ (k + 1) = 2 * 2 ^ k)
    by (rewrite Z.pow_add_r, Z.pow_1_r by lia; ring).
  destruct mrs as [m r s]. cbn [shr_m shr_r shr_s] in Hm, Hr, Hs.
  unfold shr_inv. rewrite Hdiv, Hmod, Hpk1.
  set (q := X / 2 ^ k) in *. set (rem := X mod 2 ^ k) in *.
  set (P := 2 ^ k) in *.
  assert (Es : r || s = negb (rem =? 0)).
  { rewrite Hr, Hs.
    destruct (Z.leb_spec P (2 * rem)), (Z.eqb_spec rem 0),
      (Z.eqb_spec (2 * rem) P); cbn; try reflexivity; lia. }
  assert (Hcase : q mod 2 = 0 \/ q mod 2 = 1) by lia.
  subst m.
  destruct q as [|[p|p|]|p]; try lia; cbn [shr_1 shr_m shr_r shr_s];
    rewrite Es; destruct Hcase as [Hc|Hc]; rewrite Hc in *;
    try (exfalso; clear - Hc; cbn in Hc; lia);
    (split; [cbn; lia|]);
    (split;
     [ destruct (Z.leb_spec (2 * P) (2 * (rem + P * 0)));
       destruct (Z.leb_spec (2 * P) (2 * (rem + P * 1))); try reflexivity; lia
     | destruct (Z.eqb_spec rem 0); destruct (Z.eqb_spec (rem + P * 0) 0);
       destruct (Z.eqb_spec (rem + P * 1) 0);
       destruct (Z.eqb_spec (2 * (rem + P * 0)) (2 * P));
       destruct (Z.eqb_spec (2 * (rem + P * 1)) (2 * P));
       cbn; try reflexivity; lia ]).
Qed.

End RoundToNearestEven.

Section RoundingSemantics.

Open Scope Z_scope.

Lemma shr_inv_0 X : shr_inv X 0 (Build_shr_record X false false).
Proof.
  unfold shr_inv. cbn [shr_m shr_r shr_s].
  rewrite Z.pow_0_r, Z.div_1_r, Z.mod_1_r. repeat split.
Qed.

Lemma iter_shr_inv p : forall X k mrs,
  0 <= X -> 0 <= k -> shr_inv X k mrs ->
  shr_inv X (k + Zpos p) (SpecFloat.iter_pos shr_1 p mrs).
Proof.
  induction p as [p IH|p IH|]; intros X k mrs HX Hk H; cbn [SpecFloat.iter_pos].
  - replace (k + Zpos p~1) with (k + 1 + Zpos p + Zpos p) by lia.
    apply IH; [lia|lia|]. apply IH; [lia|lia|]. apply shr_1_inv; assumption.
  - replace (k + Zpos p~0) with (k + Zpos p + Zpos p) by lia.
    apply IH; [lia|lia|]. apply IH; assumption.
  - apply shr_1_inv; assumption.
Qed.

Lemma round_of_shr_inv X k mrs :
  0 <= k -> shr_inv X k mrs ->
  round_nearest_even (shr_m mrs) (loc_of_shr_record mrs) = rne_div X k.
Proof.
  intros Hk (Hm & Hr & Hs).
  assert (Hp : 0 < 2 ^ k) by (apply Z.pow_pos_nonneg; lia).
  pose proof (Z.mod_pos_bound X (2 ^ k) Hp) as Hrem.
  destruct mrs as [m r s]. cbn [shr_m shr_r shr_s] in *. subst m.
  unfold rne_div, loc_of_shr_record, round_nearest_even.
  set (rem := X mod 2 ^ k) in *. set (P := 2 ^ k) in *.
  destruct (Z.compare_spec (2 * rem) P) as [E|E|E];
    destruct (Z.leb_spec P (2 * rem)); try lia;
    destruct (Z.eqb_spec rem 0); try lia;
    destruct (Z.eqb_spec (2 * rem) P); try lia;
    cbn in Hr, Hs; subst r s; reflexivity.
Qed.

Lemma digits2_pos_unique p d :
  2 ^ (d - 1) <= Zpos p < 2 ^ d -> Zpos (digits2_pos p) = d.
Proof.
  intros [Hlo Hhi]. pose proof (digits2_pos_bounds p) as [Blo Bhi].
  assert (Hd : 0 < d).
  { destruct (Z.ltb_spec 0 d) as [H|H]; [exact H|].
    exfalso. destruct (Z.eq_dec d 0) as [->|Hn].
    - cbn in Hhi. lia.
    - rewrite Z.pow_neg_r in Hhi by lia. lia. }
  assert (H1 : Zpos (digits2_pos p) - 1 < d).
  { apply (Z.pow_lt_mono_r_iff 2); [lia|lia|]. lia. }
  assert (H2 : d - 1 < Zpos (digits2_pos p)).
  { apply (Z.pow_lt_mono_r_iff 2); [lia|lia|]. lia. }
  lia.
Qed.

(** Rounding a positive integer with more than 53 bits, above the
    subnormal range: the mantissa is the integer rounded to 53 bits, and a
    carry into a 54th bit moves to the exponent. *)
Lemma binary_round_aux_long (v : positive) (e d : Z) :
  Zpos (digits2_pos v) = d -> 53 < d -> -1074 <= e + (d - 53) <= 970 ->
  let R := rne_div (Zpos v) (d - 53) in
  2 ^ 52 <= R <= 2 ^ 53
  /\ binary_round_aux prec emax false (Zpos v) e loc_Exact =
     if R <? 2 ^ 53 then S754_finite false (Z.to_pos R) (e + (d - 53))
     else S754_finite false 4503599627370496 (e + (d - 53) + 1).
Proof.
  intros Hd Hlong He R.
  pose proof (digits2_pos_bounds v) as [Blo Bhi]. rewrite Hd in Blo, Bhi.
  assert (Hk : 0 <= d - 53) by lia.
  assert (Hpk : 0 < 2 ^ (d - 53)) by (apply Z.pow_pos_nonneg; lia).
  assert (Hq : 2 ^ 52 <= Zpos v / 2 ^ (d - 53) < 2 ^ 53).
  { split.
    - apply Z.div_le_lower_bound; [lia|].
      rewrite <- Z.pow_add_r by lia. replace (d - 53 + 52) with (d - 1) by lia.
      exact Blo.
    - apply Z.div_lt_upper_bound; [lia|].
      rewrite <- Z.pow_add_r by lia. replace (d - 53 + 53) with d by lia.
      exact Bhi. }
  pose proof (rne_div_bounds (Zpos v) (d - 53) Hk) as HR. fold R in HR.
  assert (HR' : 2 ^ 52 <= R <= 2 ^ 53) by lia.
  split; [exact HR'|].
  unfold binary_round_aux.
  assert (E1 : shr_fexp prec emax (Zpos v) e loc_Exact =
               (SpecFloat.iter_pos shr_1 (Z.to_pos (d - 53))
                  (Build_shr_record (Zpos v) false false), e + (d - 53))).
  { unfold shr_fexp, shr, fexp, SpecFloat.emin, prec, emax.
    cbn [Zdigits2 shr_record_of_loc]. rewrite Hd.
    replace (Z.max (d + e - 53) (3 - 1024 - 53) - e) with (d - 53) by lia.
    destruct (d - 53) eqn:Edk; try lia. reflexivity. }
  rewrite E1.
  assert (Hinv : shr_inv (Zpos v) (d - 53)
                   (SpecFloat.iter_pos shr_1 (Z.to_pos (d - 53))
                      (Build_shr_record (Zpos v) false false))).
  { replace (d - 53) with (0 + Zpos (Z.to_pos (d - 53))) at 1
      by (rewrite Z2Pos.id; lia).
    apply iter_shr_inv; [lia|lia|apply shr_inv_0]. }
  rewrite (round_of_shr_inv _ _ _ Hk Hinv). fold R.
  change (2 ^ 52) with 4503599627370496 in *.
  change (2 ^ 53) with 9007199254740992 in *.
  destruct (Z.ltb_spec R 9007199254740992) as [Hlt|Hge].
  - (* no carry *)
    destruct R as [|pR|pR] eqn:ER; try lia.
    assert (HdR : Zpos (digits2_pos pR) = 53)
      by (apply digits2_pos_unique;
          change (2 ^ (53 - 1)) with 4503599627370496;
          change (2 ^ 53) with 9007199254740992; lia).
    unfold shr_fexp, shr, fexp, SpecFloat.emin, prec, emax.
    cbn [Zdigits2 shr_record_of_loc]. rewrite HdR.
    replace (Z.max (53 + (e + (d - 53)) - 53) (3 - 1024 - 53) - (e + (d - 53)))
      with 0 by lia.
    cbn [shr_m]. cbn [Z.to_pos].
    destruct (Z.leb_spec (e + (d - 53)) (1024 - 53)); [reflexivity|lia].
  - (* the mantissa rounded up to 2^53 *)
    assert (ER : R = 9007199254740992) by lia. rewrite ER.
    unfold shr_fexp, shr, fexp, SpecFloat.emin, prec, emax.
    cbn [Zdigits2 shr_record_of_loc digits2_pos Pos.succ].
    replace (Z.max (54 + (e + (d - 53)) - 53) (3 - 1024 - 53) - (e + (d - 53)))
      with 1 by lia.
    cbn [SpecFloat.iter_pos shr_1 shr_m].
    destruct (Z.leb_spec (e + (d - 53) + 1) (1024 - 53)); [reflexivity|lia].
Qed.

End RoundingSemantics.

(** ** Subtraction from one *)

Section SubtractionFromOne.

Open Scope Z_scope.

Lemma binary_round_aux_exact53 (mz : positive) (ez : Z) :
  Zpos (digits2_pos mz) = 53 -> -1074 <= ez <= 971 ->
  binary_round_aux prec emax false (Zpos mz) ez loc_Exact =
  S754_finite false mz ez.
Proof.
  intros Hd He. unfold binary_round_aux.
  assert (E : forall l, l = loc_Exact ->
            shr_fexp prec emax (Zpos mz) ez l =
            (Build_shr_record (Zpos mz) false false, ez)).
  { intros l ->. unfold shr_fexp, shr, fexp, SpecFloat.emin, prec, emax.
    cbn [Zdigits2 shr_record_of_loc]. rewrite Hd.
    replace (Z.max (53 + ez - 53) (3 - 1024 - 53) - ez) with 0 by lia.
    reflexivity. }
  rewrite (E _ eq_refl). cbn [shr_m loc_of_shr_record round_nearest_even].
  rewrite (E _ eq_refl). cbn [shr_m].
  destruct (Z.leb_spec ez (emax - prec)) as [H|H]; [reflexivity|].
  unfold emax, prec in H. lia.
Qed.

(** Rounding a positive integer of at most 53 bits, above the subnormal
    range, is exact: the mantissa is shifted left to 53 bits. *)
Lemma binary_round_short (v : positive) (e d : Z) :
  Zpos (digits2_pos v) = d -> d <= 53 -> -1074 <= e + (d - 53) -> e <= 971 ->
  binary_round prec emax false v e =
  S754_finite false (Z.to_pos (Zpos v * 2 ^ (53 - d))) (e + (d - 53)).
Proof.
  intros Hd Hshort Hlo Hhi.
  pose proof (digits2_pos_bounds v) as [Blo Bhi]. rewrite Hd in Blo, Bhi.
  assert (Hd0 : 0 < d) by (rewrite <- Hd; reflexivity).
  unfold binary_round.
  assert (Efe : fexp prec emax (Zpos (digits2_pos v) + e) = e + (d - 53)).
  { unfold fexp, SpecFloat.emin, prec, emax. rewrite Hd. lia. }
  rewrite Efe.
  assert (Eal : shl_align v e (e + (d - 53)) =
                (Z.to_pos (Zpos v * 2 ^ (53 - d)), e + (d - 53))).
  { pose proof (shl_align_value v e (e + (d - 53)) ltac:(lia)) as Hv.
    unfold shl_align in *.
    destruct (e + (d - 53) - e) as [|k|k] eqn:Ek; try lia.
    - assert (Hd53 : d = 53) by lia. rewrite Hd53.
      change (53 - 53) with 0. rewrite Z.pow_0_r, Z.mul_1_r, Z.add_0_r.
      reflexivity.
    - cbn [fst] in Hv. f_equal.
      replace (53 - d) with (e - (e + (d - 53))) by lia.
      rewrite <- Hv. reflexivity. }
  rewrite Eal.
  assert (Hp : 0 < 2 ^ (53 - d)) by (apply Z.pow_pos_nonneg; lia).
  assert (Hpos : 0 < Zpos v * 2 ^ (53 - d)) by lia.
  apply binary_round_aux_exact53; [|lia].
  apply digits2_pos_unique. rewrite Z2Pos.id by exact Hpos.
  replace (2 ^ (53 - 1)) with (2 ^ (d - 1) * 2 ^ (53 - d))
    by (rewrite <- Z.pow_add_r by lia; f_equal; lia).
  replace (2 ^ 53) with (2 ^ d * 2 ^ (53 - d))
    by (rewrite <- Z.pow_add_r by lia; f_equal; lia).
  split.
  - apply Z.mul_le_mono_nonneg_r; lia.
  - apply Z.mul_lt_mono_pos_r; lia.
Qed.

(** Order of two positive finite numbers, read on exponent and mantissa. *)
Lemma SFleb_pos_finite m1 e1 m2 e2 :
  SFleb (S754_finite false m1 e1) (S754_finite false m2 e2) = true <->
  e1 < e2 \/ (e1 = e2 /\ Zpos m1 <= Zpos m2).
Proof.
  unfold SFleb, SFcompare.
  change (Pos.compare_cont Eq m1 m2) with (Zpos m1 ?= Zpos m2).
  destruct (Z.compare_spec e1 e2); destruct (Z.compare_spec (Zpos m1) (Zpos m2));
    split; intros H'; try reflexivity; try discriminate; lia.
Qed.

Lemma SFltb_pos_finite m1 e1 m2 e2 :
  SFltb (S754_finite false m1 e1) (S754_finite false m2 e2) = true <->
  e1 < e2 \/ (e1 = e2 /\ Zpos m1 < Zpos m2).
Proof.
  unfold SFltb, SFcompare.
  change (Pos.compare_cont Eq m1 m2) with (Zpos m1 ?= Zpos m2).
  destruct (Z.compare_spec e1 e2); destruct (Z.compare_spec (Zpos m1) (Zpos m2));
    split; intros H'; try reflexivity; try discriminate; lia.
Qed.


Lemma one_minus_finite m e :
  e <= -53 ->
  SF64sub one_sf (S754_finite false m e) =
  binary_normalize prec emax (2 ^ (- e) - Zpos m) e false.
Proof.
  intros He. unfold SF64sub, SFsub, one_sf.
  rewrite Z.min_r by lia.
  rewrite (shl_align_value _ (-52) e) by lia.
  rewrite (shl_align_value m e e) by lia.
  unfold cond_Zopp. rewrite Z.sub_diag, Z.pow_0_r, Z.mul_1_r.
  change 4503599627370496 with (2 ^ 52).
  rewrite <- Z.pow_add_r by lia.
  replace (52 + (-52 - e)) with (- e) by lia. reflexivity.
Qed.

(** [1 - p] for a double [p] below one half: the difference has more than
    53 bits and is rounded to a multiple of [2^-53] in [[1/2, 1]]. *)
Lemma one_minus_small m e :
  SpecFloat.bounded prec emax m e = true -> e <= -54 ->
  let R := rne_div (2 ^ (- e) - Zpos m) (-53 - e) in
  2 ^ 52 <= R <= 2 ^ 53
  /\ SF64sub one_sf (S754_finite false m e) =
     if R <? 2 ^ 53 then S754_finite false (Z.to_pos R) (-53) else one_sf.
Proof.
  intros Hb He R.
  pose proof (bounded_digits m e Hb) as [Hhi _].
  assert (Hex : -1074 <= e).
  { unfold SpecFloat.bounded, canonical_mantissa, fexp, SpecFloat.emin,
      prec, emax in Hb.
    apply andb_prop in Hb. destruct Hb as [Hc _]. apply Z.eqb_eq in Hc. lia. }
  assert (Hpow : 2 ^ (- e) = 2 * 2 ^ (- e - 1)).
  { replace (- e) with (1 + (- e - 1)) at 1 by lia.
    rewrite Z.pow_add_r by lia. reflexivity. }
  assert (Hbig : 2 ^ 53 <= 2 ^ (- e - 1)) by (apply Z.pow_le_mono_r; lia).
  assert (Hv : 2 ^ (- e - 1) <= 2 ^ (- e) - Zpos m < 2 ^ (- e)) by lia.
  rewrite one_minus_finite by lia.
  destruct (2 ^ (- e) - Zpos m) as [|pv|pv] eqn:Ev; try lia.
  assert (Hd : Zpos (digits2_pos pv) = - e) by (apply digits2_pos_unique; lia).
  cbn [binary_normalize]. unfold binary_round.
  assert (Efe : fexp prec emax (Zpos (digits2_pos pv) + e) = -53).
  { rewrite Hd, Z.add_opp_diag_l. reflexivity. }
  rewrite Efe.
  assert (Eal : shl_align pv e (-53) = (pv, e)).
  { unfold shl_align. destruct (-53 - e) eqn:Ek; try lia; reflexivity. }
  rewrite Eal.
  pose proof (binary_round_aux_long pv e (- e) Hd ltac:(lia) ltac:(lia))
    as [HR Hres].
  cbv zeta in HR, Hres.
  replace (- e - 53) with (-53 - e) in HR, Hres by lia.
  replace (e + (-53 - e)) with (-53) in Hres by lia.
  subst R. split; [exact HR|]. exact Hres.
Qed.

(** [1 - p] for a double [p] in [[1/2, 1)]: the difference is exact. *)
Lemma one_minus_large m :
  SpecFloat.bounded prec emax m (-53) = true ->
  exists pv d,
    Zpos pv = 2 ^ 53 - Zpos m /\ Zpos (digits2_pos pv) = d /\ 0 < d <= 53
    /\ SF64sub one_sf (S754_finite false m (-53)) =
       S754_finite false (Z.to_pos (Zpos pv * 2 ^ (53 - d))) (d - 106).
Proof.
  intros Hb.
  pose proof (bounded_digits m (-53) Hb) as [Hhi Hlo].
  specialize (Hlo ltac:(lia)).
  rewrite one_minus_finite by lia. change (- -53) with 53.
  destruct (2 ^ 53 - Zpos m) as [|pv|pv] eqn:Ev; try lia.
  exists pv, (Zpos (digits2_pos pv)).
  pose proof (digits2_pos_bounds pv) as [Blo Bhi].
  assert (Hd : Zpos (digits2_pos pv) <= 53).
  { assert (Zpos (digits2_pos pv) - 1 < 53); [|lia].
    apply (Z.pow_lt_mono_r_iff 2); lia. }
  split; [reflexivity|]. split; [reflexivity|]. split; [lia|].
  cbn [binary_normalize].
  rewrite (binary_round_short pv (-53) _ eq_refl Hd) by lia.
  f_equal. lia.
Qed.

End SubtractionFromOne.

Section SubtractionAntitone.

Open Scope Z_scope.

Lemma rne_small_antitone m1 e1 m2 e2 :
  SpecFloat.bounded prec emax m1 e1 = true ->
  SpecFloat.bounded prec emax m2 e2 = true ->
  e2 <= -54 ->
  e1 < e2 \/ (e1 = e2 /\ Zpos m1 <= Zpos m2) ->
  rne_div (2 ^ (- e2) - Zpos m2) (-53 - e2)
  <= rne_div (2 ^ (- e1) - Zpos m1) (-53 - e1).
Proof.
  intros Hb1 Hb2 He2 Hle.
  pose proof (bounded_digits m1 e1 Hb1) as [Hhi1 _].
  pose proof (bounded_digits m2 e2 Hb2) as [_ Hlo2].
  assert (Hex1 : -1074 <= e1).
  { unfold SpecFloat.bounded, canonical_mantissa, fexp, SpecFloat.emin,
      prec, emax in Hb1.
    apply andb_prop in Hb1. destruct Hb1 as [Hc _]. apply Z.eqb_eq in Hc. lia. }
  assert (Hj : 0 <= e2 - e1) by lia.
  rewrite <- (rne_div_scale (2 ^ (- e2) - Zpos m2) (-53 - e2) (e2 - e1))
    by lia.
  replace (-53 - e2 + (e2 - e1)) with (-53 - e1) by lia.
  apply rne_div_mono; [lia|].
  rewrite Z.mul_sub_distr_r, <- Z.pow_add_r by lia.
  replace (- e2 + (e2 - e1)) with (- e1) by lia.
  assert (Hm : Zpos m1 <= Zpos m2 * 2 ^ (e2 - e1)).
  { destruct Hle as [Hlt|[-> Hm]].
    - specialize (Hlo2 ltac:(lia)).
      assert (Hp : 2 ^ 1 <= 2 ^ (e2 - e1)) by (apply Z.pow_le_mono_r; lia).
      change (2 ^ 1) with 2 in Hp.
      assert (Zpos m2 * 2 <= Zpos m2 * 2 ^ (e2 - e1))
        by (apply Z.mul_le_mono_nonneg_l; lia).
      change (2 ^ 53) with 9007199254740992 in *.
      change (2 ^ 52) with 4503599627370496 in *. lia.
    - rewrite Z.sub_diag, Z.pow_0_r. lia. }
  lia.
Qed.

(** On the valid doubles of [(0,1)], [p -> 1 - p] is non-increasing. *)
Lemma SFsub_one_antitone m1 e1 m2 e2 :
  SpecFloat.bounded prec emax m1 e1 = true ->
  SpecFloat.bounded prec emax m2 e2 = true ->
  SFleb (S754_finite false m1 e1) (S754_finite false m2 e2) = true ->
  SFltb (S754_finite false m2 e2) one_sf = true ->
  SFleb (SF64sub one_sf (S754_finite false m2 e2))
        (SF64sub one_sf (S754_finite false m1 e1)) = true.
Proof.
  intros Hb1 Hb2 Hle Hlt.
  apply SFleb_pos_finite in Hle.
  unfold one_sf in Hlt. apply SFltb_pos_finite in Hlt.
  pose proof (bounded_digits m2 e2 Hb2) as [_ Hlo2].
  change (2 ^ 52) with 4503599627370496 in Hlo2.
  assert (He2 : e2 <= -53) by lia. clear Hlt.
  destruct (Z.le_gt_cases e2 (-54)) as [Hs2|Hl2].
  - (* both below one half *)
    pose proof (rne_small_antitone m1 e1 m2 e2 Hb1 Hb2 Hs2 Hle) as HR.
    destruct (one_minus_small m1 e1 Hb1 ltac:(lia)) as [B1 E1].
    destruct (one_minus_small m2 e2 Hb2 Hs2) as [B2 E2].
    cbv zeta in B1, E1, B2, E2. rewrite E1, E2.
    set (R1 := rne_div (2 ^ (- e1) - Zpos m1) (-53 - e1)) in *.
    set (R2 := rne_div (2 ^ (- e2) - Zpos m2) (-53 - e2)) in *.
    change (2 ^ 52) with 4503599627370496 in *.
    change (2 ^ 53) with 9007199254740992 in *.
    destruct (Z.ltb_spec R1 9007199254740992);
      destruct (Z.ltb_spec R2 9007199254740992); try lia;
      unfold one_sf; apply SFleb_pos_finite; rewrite ?Z2Pos.id by lia; lia.
  - assert (E2 : e2 = -53) by lia. subst e2.
    destruct (one_minus_large m2 Hb2) as (pv2 & d2 & Hv2 & Hd2 & Hr2 & ->).
    pose proof (digits2_pos_bounds pv2) as [Blo2 Bhi2].
    rewrite Hd2 in Blo2, Bhi2.
    assert (Hp2 : 0 < 2 ^ (53 - d2)) by (apply Z.pow_pos_nonneg; lia).
    assert (HM2 : Zpos pv2 * 2 ^ (53 - d2) < 2 ^ 53).
    { replace (2 ^ 53) with (2 ^ d2 * 2 ^ (53 - d2))
        by (rewrite <- Z.pow_add_r by lia; f_equal; lia).
      apply Z.mul_lt_mono_pos_r; lia. }
    destruct (Z.le_gt_cases e1 (-54)) as [Hs1|Hl1].
    + (* p1 below one half, p2 above *)
      destruct (one_minus_small m1 e1 Hb1 Hs1) as [B1 E1].
      cbv zeta in B1, E1. rewrite E1.
      set (R1 := rne_div (2 ^ (- e1) - Zpos m1) (-53 - e1)) in *.
      assert (Hcmp : d2 - 106 < -53 \/
                     (d2 - 106 = -53 /\ Zpos pv2 * 2 ^ (53 - d2) <= R1)).
      { destruct (Z.eq_dec d2 53) as [->|Hn]; [right|left; lia].
        split; [lia|]. change (53 - 53) with 0. rewrite Z.pow_0_r, Z.mul_1_r.
        pose proof (bounded_digits m2 (-53) Hb2) as [_ Hm2].
        specialize (Hm2 ltac:(lia)). lia. }
      change (2 ^ 52) with 4503599627370496 in *.
      change (2 ^ 53) with 9007199254740992 in *.
      destruct (Z.ltb_spec R1 9007199254740992); unfold one_sf;
        apply SFleb_pos_finite; rewrite ?Z2Pos.id by lia; lia.
    + (* both in [1/2, 1) *)
      assert (E1 : e1 = -53) by lia. subst e1.
      destruct (one_minus_large m1 Hb1) as (pv1 & d1 & Hv1 & Hd1 & Hr1 & ->).
      pose proof (digits2_pos_bounds pv1) as [Blo1 Bhi1].
      rewrite Hd1 in Blo1, Bhi1.
      assert (Hp1 : 0 < 2 ^ (53 - d1)) by (apply Z.pow_pos_nonneg; lia).
      assert (Hv : Zpos pv2 <= Zpos pv1) by lia.
      assert (Hd : d2 <= d1).
      { assert (d2 - 1 < d1); [|lia].
        apply (Z.pow_lt_mono_r_iff 2); lia. }
      apply SFleb_pos_finite. rewrite !Z2Pos.id by lia.
      destruct (Z.eq_dec d2 d1) as [->|Hn]; [right|left; lia].
      split; [reflexivity|]. apply Z.mul_le_mono_nonneg_r; lia.
Qed.

End SubtractionAntitone.

(** ** Order on positive doubles *)

Section OrderOnDoubles.

Open Scope float_scope.

Lemma SFcompare_opp x y :
  SFcompare (SFopp x) (SFopp y) = SFcompare y x.
Proof.
  destruct x as [s1|s1| |s1 m1 e1], y as [s2|s2| |s2 m2 e2]; simpl;
    try reflexivity;
    try (destruct s1, s2; reflexivity);
    try (destruct s1; reflexivity);
    try (destruct s2; reflexivity).
  destruct s1, s2; simpl; try reflexivity;
    rewrite (Z.compare_antisym e1 e2), (ZC4 m2 m1);
    destruct (e1 ?= e2)%Z; simpl; try reflexivity;
    destruct (Pos.compare_cont Eq m1 m2); reflexivity.
Qed.

Lemma positive_finite_of_bounds x y :
  (0 <? x) = true -> (x <=? y) = true -> (y <? 1) = true ->
  positive_finite x /\ positive_finite y.
Proof.
  rewrite ltb_spec, leb_spec, ltb_spec. unfold positive_finite.
  change (Prim2SF 0) with (S754_zero false). change (Prim2SF 1) with one_sf.
  destruct (Prim2SF x) as [s1|s1| |s1 m1 e1];
    destruct (Prim2SF y) as [s2|s2| |s2 m2 e2];
    try destruct s1; try destruct s2; intros H0 H12 H1;
    try discriminate H0; try discriminate H12; try discriminate H1.
  split; do 2 eexists; reflexivity.
Qed.

Lemma pos_leb_iff x y m1 e1 m2 e2 :
  Prim2SF x = S754_finite false m1 e1 -> Prim2SF y = S754_finite false m2 e2 ->
  (x <=? y) = true <-> (e1 < e2 \/ (e1 = e2 /\ Zpos m1 <= Zpos m2))%Z.
Proof. intros Hx Hy. rewrite leb_spec, Hx, Hy. apply SFleb_pos_finite. Qed.

Lemma pos_ltb_iff x y m1 e1 m2 e2 :
  Prim2SF x = S754_finite false m1 e1 -> Prim2SF y = S754_finite false m2 e2 ->
  (x <? y) = true <-> (e1 < e2 \/ (e1 = e2 /\ Zpos m1 < Zpos m2))%Z.
Proof. intros Hx Hy. rewrite ltb_spec, Hx, Hy. apply SFltb_pos_finite. Qed.

Lemma pos_ltb_false_iff x y m1 e1 m2 e2 :
  Prim2SF x = S754_finite false m1 e1 -> Prim2SF y = S754_finite false m2 e2 ->
  (x <? y) = false <-> (e2 < e1 \/ (e1 = e2 /\ Zpos m2 <= Zpos m1))%Z.
Proof.
  intros Hx Hy. pose proof (pos_ltb_iff x y _ _ _ _ Hx Hy) as H.
  destruct (x <? y); split; intros H'; try reflexivity; try discriminate.
  - assert (true = true) as E by reflexivity. apply H in E. lia.
  - destruct (Z.lt_trichotomy e1 e2) as [L|[L|L]].
    + assert (false = true) as E by (apply H; lia). discriminate E.
    + destruct (Z.le_gt_cases (Zpos m2) (Zpos m1)) as [L'|L']; [lia|].
      assert (false = true) as E by (apply H; lia). discriminate E.
    + lia.
Qed.

(** The floor [max(a, .)] is monotone, and strictly so from the floor on. *)
Lemma floor_monotone a x y :
  positive_finite a -> positive_finite x -> positive_finite y ->
  (x <=? y) = true ->
  ((if a <? x then x else a) <=? (if a <? y then y else a)) = true.
Proof.
  intros (ma & ea & Ha) (mx & ex & Hx) (my & ey & Hy) Hxy.
  apply (pos_leb_iff _ _ _ _ _ _ Hx Hy) in Hxy.
  destruct (a <? x) eqn:Eax, (a <? y) eqn:Eay.
  - apply (pos_leb_iff _ _ _ _ _ _ Hx Hy). exact Hxy.
  - apply (pos_ltb_iff _ _ _ _ _ _ Ha Hx) in Eax.
    apply (pos_ltb_false_iff _ _ _ _ _ _ Ha Hy) in Eay. lia.
  - apply (pos_ltb_iff _ _ _ _ _ _ Ha Hy) in Eay.
    apply (pos_leb_iff _ _ _ _ _ _ Ha Hy). lia.
  - apply (pos_leb_iff _ _ _ _ _ _ Ha Ha). lia.
Qed.

Lemma floor_active a x y :
  positive_finite a -> positive_finite x -> positive_finite y ->
  (x <=? y) = true -> (y <=? a) = true ->
  (a <? x) = false /\ (a <? y) = false.
Proof.
  intros (ma & ea & Ha) (mx & ex & Hx) (my & ey & Hy) Hxy Hya.
  apply (pos_leb_iff _ _ _ _ _ _ Hx Hy) in Hxy.
  apply (pos_leb_iff _ _ _ _ _ _ Hy Ha) in Hya.
  split.
  - apply (pos_ltb_false_iff _ _ _ _ _ _ Ha Hx). lia.
  - apply (pos_ltb_false_iff _ _ _ _ _ _ Ha Hy). lia.
Qed.

(** On the doubles of [(0,1)], [p -> 1 - p] is non-increasing and stays
    positive. *)
Lemma sub_one_antitone p1 p2 :
  (0 <? p1) = true -> (p1 <=? p2) = true -> (p2 <? 1) = true ->
  (1 - p2 <=? 1 - p1) = true
  /\ positive_finite (1 - p1) /\ positive_finite (1 - p2).
Proof.
  intros H0 H12 H1.
  destruct (positive_finite_of_bounds _ _ H0 H12 H1)
    as [(m1 & e1 & E1) (m2 & e2 & E2)].
  pose proof (Prim2SF_valid p1) as V1. pose proof (Prim2SF_valid p2) as V2.
  rewrite E1 in V1. rewrite E2 in V2. cbn in V1, V2.
  assert (Hle : SFleb (S754_finite false m1 e1) (S754_finite false m2 e2) = true)
    by (rewrite <- E1, <- E2, <- leb_spec; exact H12).
  assert (Hlt : SFltb (S754_finite false m2 e2) one_sf = true)
    by (rewrite <- E2; change one_sf with (Prim2SF 1); rewrite <- ltb_spec;
        exact H1).
  pose proof (SFsub_one_antitone m1 e1 m2 e2 V1 V2 Hle Hlt) as Hsub.
  assert (Hpos : forall p m e, Prim2SF p = S754_finite false m e ->
            SpecFloat.bounded prec emax m e = true ->
            SFltb (S754_finite false m e) one_sf = true ->
            positive_finite (1 - p)).
  { intros p m e Ep Vp Lp. unfold positive_finite. rewrite sub_spec, Ep.
    change (Prim2SF 1) with one_sf.
    unfold one_sf in Lp. apply SFltb_pos_finite in Lp.
    pose proof (bounded_digits m e Vp) as [_ Hlo].
    change (2 ^ 52)%Z with 4503599627370496%Z in Hlo.
    assert (He : (e <= -53)%Z) by lia.
    destruct (Z.le_gt_cases e (-54)) as [Hs|Hl].
    - destruct (one_minus_small m e Vp Hs) as [_ ->]. cbv zeta.
      destruct (_ <? _)%Z; unfold one_sf; eauto.
    - assert (e = -53)%Z by lia. subst e.
      destruct (one_minus_large m Vp) as (pv & d & _ & _ & _ & ->). eauto. }
  split; [|split].
  - rewrite leb_spec, !sub_spec, E1, E2. exact Hsub.
  - apply (Hpos p1 m1 e1 E1 V1).
    apply SFleb_pos_finite in Hle. unfold one_sf in *.
    apply SFltb_pos_finite in Hlt. apply SFltb_pos_finite. lia.
  - apply (Hpos p2 m2 e2 E2 V2 Hlt).
Qed.

End OrderOnDoubles.

(** ** Monotonicity *)

Section LogisticOnDoubles.

Open Scope float_scope.

Lemma ltb_opp_eq x y : (- y <? - x) = (x <? y).
Proof.
  rewrite !ltb_spec, !opp_spec. unfold SFltb. rewrite SFcompare_opp.
  reflexivity.
Qed.

Lemma leb_opp_eq x y : (- y <=? - x) = (x <=? y).
Proof.
  rewrite !leb_spec, !opp_spec. unfold SFleb. rewrite SFcompare_opp.
  reflexivity.
Qed.

Lemma floor_positive_finite : positive_finite 0.0001.
Proof. exists 7378697629483821%positive, (-66)%Z. reflexivity. Qed.

Lemma one_positive_finite : positive_finite 1.
Proof. exists 4503599627370496%positive, (-52)%Z. reflexivity. Qed.

Lemma pos_leb_trans x y z :
  positive_finite x -> positive_finite y -> positive_finite z ->
  (x <=? y) = true -> (y <=? z) = true -> (x <=? z) = true.
Proof.
  intros (mx & ex & Hx) (my & ey & Hy) (mz & ez & Hz) Hxy Hyz.
  apply (pos_leb_iff _ _ _ _ _ _ Hx Hy) in Hxy.
  apply (pos_leb_iff _ _ _ _ _ _ Hy Hz) in Hyz.
  apply (pos_leb_iff _ _ _ _ _ _ Hx Hz). lia.
Qed.

Lemma pos_leb_ltb_trans x y z :
  positive_finite x -> positive_finite y -> positive_finite z ->
  (x <=? y) = true -> (y <? z) = true -> (x <? z) = true.
Proof.
  intros (mx & ex & Hx) (my & ey & Hy) (mz & ez & Hz) Hxy Hyz.
  apply (pos_leb_iff _ _ _ _ _ _ Hx Hy) in Hxy.
  apply (pos_ltb_iff _ _ _ _ _ _ Hy Hz) in Hyz.
  apply (pos_ltb_iff _ _ _ _ _ _ Hx Hz). lia.
Qed.

(** The floor [max(a, x)] of a positive [x] is positive, at least [a] and
    at most any bound of [a] and [x]. *)
Lemma floor_range a x b :
  positive_finite a -> positive_finite x ->
  (a <=? b) = true -> (x <=? b) = true ->
  positive_finite (if a <? x then x else a)
  /\ (a <=? (if a <? x then x else a)) = true
  /\ ((if a <? x then x else a) <=? b) = true.
Proof.
  intros Ha Hx Hab Hxb.
  destruct (a <? x) eqn:E.
  - split; [exact Hx|]. split; [apply ltb_leb, E|exact Hxb].
  - split; [exact Ha|]. split; [|exact Hab].
    destruct Ha as (ma & ea & Ha).
    apply (pos_leb_iff _ _ _ _ _ _ Ha Ha). lia.
Qed.

(** For a double [p] of [(0,1)], [1 - p] is a positive double, at most 1. *)
Lemma sub_one_range p :
  (0 <? p) = true -> (p <? 1) = true ->
  positive_finite (1 - p) /\ (1 - p <=? 1) = true.
Proof.
  intros H0 H1.
  destruct (positive_finite_of_bounds p p H0) as [(m & e & E) _];
    [|exact H1|].
  { rewrite ltb_spec in H0. rewrite leb_spec. unfold SFleb.
    rewrite SFcompare_refl; [reflexivity|].
    intros N. rewrite N in H0. discriminate H0. }
  pose proof (Prim2SF_valid p) as V. rewrite E in V. cbn in V.
  assert (Lp : SFltb (S754_finite false m e) one_sf = true)
    by (rewrite <- E; change one_sf with (Prim2SF 1); rewrite <- ltb_spec;
        exact H1).
  unfold positive_finite. rewrite leb_spec, sub_spec, E.
  change (Prim2SF 1) with one_sf.
  pose proof Lp as Lp'. unfold one_sf in Lp'. apply SFltb_pos_finite in Lp'.
  pose proof (bounded_digits m e V) as [_ Hlo].
  change (2 ^ 52)%Z with 4503599627370496%Z in Hlo.
  assert (He : (e <= -53)%Z) by lia.
  destruct (Z.le_gt_cases e (-54)) as [Hs|Hl].
  - destruct (one_minus_small m e V Hs) as [HR ->]. cbv zeta in *.
    destruct (Z.ltb_spec (rne_div (2 ^ (- e) - Z.pos m) (-53 - e)) (2 ^ 53)).
    + split; [eauto|]. unfold one_sf. apply SFleb_pos_finite. lia.
    + split; [unfold one_sf; eauto|]. unfold one_sf.
      apply SFleb_pos_finite. lia.
  - assert (e = -53)%Z by lia. subst e.
    destruct (one_minus_large m V) as (pv & d & _ & _ & Hd & ->).
    split; [eauto|]. unfold one_sf. apply SFleb_pos_finite. lia.
Qed.

Context {M : Libm float}.

(** Inside [(0,1)] neither [CHECK] fires, for either label. *)
Lemma Logistic_evaluate_inside p :
  (0 <? p) = true -> (p <? 1) = true ->
  evaluate LogisticLoss p 1 =
    Ret (- log (if 0.0001 <? p then p else 0.0001))
  /\ evaluate LogisticLoss p 0 =
    Ret (- log (if 0.0001 <? 1 - p then 1 - p else 0.0001)).
Proof.
  intros H0 H1. cbn. unfold LogisticLoss_evaluate, std_max. cbn.
  rewrite (ltb_leb _ _ H0), (ltb_leb _ _ H1). split; reflexivity.
Qed.

Lemma floor_inactive a x :
  positive_finite a -> positive_finite x ->
  (a <=? x) = true -> (if a <? x then x else a) = x.
Proof.
  intros (ma & ea & Ha) (mx & ex & Hx) Hax.
  destruct (a <? x) eqn:E; [reflexivity|].
  apply (pos_leb_iff _ _ _ _ _ _ Ha Hx) in Hax.
  apply (pos_ltb_false_iff _ _ _ _ _ _ Ha Hx) in E.
  apply Prim2SF_inj. rewrite Ha, Hx.
  assert (ea = ex) by lia. assert (ma = mx) by lia. congruence.
Qed.

(** C9 (as amended).  On binary64, for doubles [0 < p1 < p2 < 1]:
    - if libm's [log] is non-decreasing on [[0.0001, 1]], then
      [evaluate(p1,1) >= evaluate(p2,1)] and
      [evaluate(p1,0) <= evaluate(p2,0)];
    - from the floor on ([0.0001 <= p1] for label 1, [0.0001 <= 1 - p2]
      for label 0) the inequality is strict exactly when [log] tells the
      two arguments apart: [log(p1) < log(p2)] for label 1 and
      [log(1-p2) < log(1-p1)] for label 0, whatever libm is;
    - where the floor is active ([p2 <= 0.0001] for label 1,
      [1 - p1 <= 0.0001] for label 0) the two losses are equal. *)
Theorem Logistic_monotone_on_doubles (p1 p2 : float) :
  (0 <? p1) = true -> (p1 <? p2) = true -> (p2 <? 1) = true ->
  (log_nondecreasing M ->
     returns_leq (evaluate LogisticLoss p2 1) (evaluate LogisticLoss p1 1)
     /\ returns_leq (evaluate LogisticLoss p1 0) (evaluate LogisticLoss p2 0))
  /\ ((0.0001 <=? p1) = true ->
      (returns_less (evaluate LogisticLoss p2 1) (evaluate LogisticLoss p1 1)
       <-> (log p1 <? log p2) = true))
  /\ ((0.0001 <=? 1 - p2) = true ->
      (returns_less (evaluate LogisticLoss p1 0) (evaluate LogisticLoss p2 0)
       <-> (log (1 - p2) <? log (1 - p1)) = true))
  /\ ((p2 <=? 0.0001) = true ->
      evaluate LogisticLoss p1 1 = evaluate LogisticLoss p2 1)
  /\ ((1 - p1 <=? 0.0001) = true ->
      evaluate LogisticLoss p1 0 = evaluate LogisticLoss p2 0).
Proof.
  intros H0 H12 H1.
  pose proof (ltb_leb _ _ H12) as L12.
  destruct (positive_finite_of_bounds p1 p2 H0 L12 H1) as [P1 P2].
  pose proof floor_positive_finite as Pf.
  pose proof one_positive_finite as Po.
  assert (H1' : (p1 <? 1) = true)
    by (apply (pos_leb_ltb_trans p1 p2 1); assumption).
  assert (H0' : (0 <? p2) = true).
  { destruct P2 as (m & e & E). rewrite ltb_spec, E. reflexivity. }
  destruct (Logistic_evaluate_inside p1 H0 H1') as [E11 E10].
  destruct (Logistic_evaluate_inside p2 H0' H1) as [E21 E20].
  rewrite E11, E10, E21, E20. clear E11 E10 E21 E20.
  destruct (sub_one_antitone p1 p2 H0 L12 H1) as (Hsub & Q1 & Q2).
  destruct (sub_one_range p1 H0 H1') as [_ U1].
  destruct (sub_one_range p2 H0' H1) as [_ U2].
  assert (Lf1 : (0.0001 <=? 1) = true) by reflexivity.
  unfold returns_leq, returns_less. cbn [leb ltb neg binary64].
  split; [|split; [|split; [|split]]].
  - intros Hlog. split; rewrite leb_opp_eq; apply Hlog.
    + apply (floor_range 0.0001 p1 1); auto using ltb_leb.
    + apply floor_monotone; assumption.
    + apply (floor_range 0.0001 p2 1); auto using ltb_leb.
    + apply (floor_range 0.0001 (1 - p2) 1); assumption.
    + apply floor_monotone; assumption.
    + apply (floor_range 0.0001 (1 - p1) 1); assumption.
  - intros Hf.
    rewrite (floor_inactive 0.0001 p1 Pf P1 Hf).
    rewrite (floor_inactive 0.0001 p2 Pf P2
               (pos_leb_trans _ _ _ Pf P1 P2 Hf L12)).
    rewrite ltb_opp_eq. reflexivity.
  - intros Hf.
    rewrite (floor_inactive 0.0001 (1 - p2) Pf Q2 Hf).
    rewrite (floor_inactive 0.0001 (1 - p1) Pf Q1
               (pos_leb_trans _ _ _ Pf Q2 Q1 Hf Hsub)).
    rewrite ltb_opp_eq. reflexivity.
  - intros Hf.
    destruct (floor_active 0.0001 p1 p2 Pf P1 P2 L12 Hf) as [-> ->].
    reflexivity.
  - intros Hf.
    destruct (floor_active 0.0001 (1 - p2) (1 - p1) Pf Q2 Q1 Hsub Hf)
      as [-> ->].
    reflexivity.
Qed.

End LogisticOnDoubles.

Lemma Logistic_monotone_on_doubles_witness :
  ((0 <? 0.25) = true /\ (0.25 <? 0.5) = true /\ (0.5 <? 1) = true
   /\ (0.0001 <=? 0.25) = true /\ (0.0001 <=? 1 - 0.5) = true)%float
  /\ (let M : Libm float :=
        {| exp := fun x => x; log := fun x => x; log1p := fun x => x |} in
      log_nondecreasing M
      /\ returns_leq (evaluate (@LogisticLoss float binary64 M) 0.5 1)%float
                     (evaluate (@LogisticLoss float binary64 M) 0.25 1)%float
      /\ returns_leq (evaluate (@LogisticLoss float binary64 M) 0.25 0)%float
                     (evaluate (@LogisticLoss float binary64 M) 0.5 0)%float)
  /\ (forall M : Libm float,
        (returns_less (evaluate LogisticLoss 0.5%float 1%float)
                      (evaluate LogisticLoss 0.25%float 1%float)
         <-> (log 0.25 <? log 0.5)%float = true)
        /\ (returns_less (evaluate LogisticLoss 0.25%float 0%float)
                         (evaluate LogisticLoss 0.5%float 0%float)
            <-> (log 0.5 <? log 0.75)%float = true))
  /\ ((0 <? 0x1p-20) = true /\ (0x1p-20 <? 0x1p-19) = true
      /\ (0x1p-19 <? 1) = true /\ (0x1p-19 <=? 0.0001) = true)%float
  /\ (forall M : Libm float,
        evaluate LogisticLoss 0x1p-20%float 1%float =
        evaluate LogisticLoss 0x1p-19%float 1%float)
  /\ ((0 <? 0.99995) = true /\ (0.99995 <? 0.99999) = true
      /\ (0.99999 <? 1) = true /\ (1 - 0.99995 <=? 0.0001) = true)%float
  /\ (forall M : Libm float,
        evaluate LogisticLoss 0.99995%float 0%float =
        evaluate LogisticLoss 0.99999%float 0%float).
Proof.
  split; [repeat split|]. split; [|split; [|split; [|split; [|split]]]].
  - intros M.
    assert (Hlog : log_nondecreasing M) by (intros x y _ H _; exact H).
    split; [exact Hlog|].
    exact (proj1 (@Logistic_monotone_on_doubles M 0.25%float 0.5%float
                    eq_refl eq_refl eq_refl) Hlog).
  - intros M. split.
    + exact (proj1 (proj2 (@Logistic_monotone_on_doubles M 0.25%float
                             0.5%float eq_refl eq_refl eq_refl)) eq_refl).
    + exact (proj1 (proj2 (proj2 (@Logistic_monotone_on_doubles M 0.25%float
                             0.5%float eq_refl eq_refl eq_refl))) eq_refl).
  - repeat split.
  - intros M.
    exact (proj1 (proj2 (proj2 (proj2
             (@Logistic_monotone_on_doubles M 0x1p-20%float 0x1p-19%float
                eq_refl eq_refl eq_refl)))) eq_refl).
  - repeat split.
  - intros M.
    exact (proj2 (proj2 (proj2 (proj2
             (@Logistic_monotone_on_doubles M 0.99995%float 0.99999%float
                eq_refl eq_refl eq_refl)))) eq_refl).
Defined.

(** C9, as stated, fails: strict monotonicity over the whole of [(0,1)].
    Below the floor two predictions get the same loss, in exact
    arithmetic and on binary64 (whatever libm's [log] returns).  Clear of
    the floor, on binary64, two neighbouring doubles [p1 < p2] near 0.3
    have the same [1 - p] (the difference rounds to 53 bits), hence the
    same loss for label 0, again whatever [log] returns. *)
Lemma Logistic_not_strictly_monotone :
  ((0 < 1 / 100000)%R /\ (1 / 100000 < 2 / 100000)%R /\ (2 / 100000 < 1)%R
   /\ ~ returns_less (evaluate LogisticLoss (2 / 100000)%R 1%R)
                     (evaluate LogisticLoss (1 / 100000)%R 1%R))
  /\ ((0 < 1 - 2 / 100000)%R /\ (1 - 2 / 100000 < 1 - 1 / 100000)%R
      /\ (1 - 1 / 100000 < 1)%R
      /\ ~ returns_less (evaluate LogisticLoss (1 - 2 / 100000)%R 0%R)
                        (evaluate LogisticLoss (1 - 1 / 100000)%R 0%R))
  /\ ((0 <? 0x1p-20)%float = true /\ (0x1p-20 <? 0x1p-19)%float = true
      /\ (0x1p-19 <? 1)%float = true
      /\ forall M : Libm float,
           ~ returns_less (evaluate LogisticLoss 0x1p-19%float 1%float)
                          (evaluate LogisticLoss 0x1p-20%float 1%float))
  /\ ((0 <? 0.99995)%float = true /\ (0.99995 <? 0.99999)%float = true
      /\ (0.99999 <? 1)%float = true
      /\ forall M : Libm float,
           ~ returns_less (evaluate LogisticLoss 0.99995%float 0%float)
                          (evaluate LogisticLoss 0.99999%float 0%float))
  /\ ((0 <? 0x1.3333333333333p-2)%float = true
      /\ (0x1.3333333333333p-2 <? 0x1.3333333333334p-2)%float = true
      /\ (0x1.3333333333334p-2 <? 1)%float = true
      /\ (0.0001 <? 1 - 0x1.3333333333334p-2)%float = true
      /\ (1 - 0x1.3333333333333p-2 = 1 - 0x1.3333333333334p-2)%float
      /\ forall M : Libm float,
           evaluate LogisticLoss 0x1.3333333333333p-2%float 0%float =
           evaluate LogisticLoss 0x1.3333333333334p-2%float 0%float
           /\ ~ returns_less
                 (evaluate LogisticLoss 0x1.3333333333333p-2%float 0%float)
                 (evaluate LogisticLoss 0x1.3333333333334p-2%float 0%float)).
Proof.
  split; [|split; [|split; [|split]]].
  - repeat split; try lra.
    rewrite !Ideal_Logistic_evaluate_1 by lra.
    rewrite !Rmax_left by lra. unfold returns_less. cbn.
    intros H. apply Rltb_true in H. lra.
  - repeat split; try lra.
    rewrite !Ideal_Logistic_evaluate_0 by lra.
    rewrite !Rmax_left by lra. unfold returns_less. cbn.
    intros H. apply Rltb_true in H. lra.
  - repeat split. intros M. cbn. apply not_true_iff_false, ltb_irrefl.
  - repeat split. intros M. cbn. apply not_true_iff_false, ltb_irrefl.
  - repeat split. cbn. apply not_true_iff_false, ltb_irrefl.
Qed.

(** * SquaredHinge: closed form and continuity at the margin *)

(** C8 (as amended).  On binary64, whenever the margin [z = pred*truth] is
    not NaN, [evaluate] is [0.5 * m * m] with [m = max(0, 1 - z)], the
    product taken from left to right; a NaN margin comes back as NaN; at
    [z = 1] the value is 0.  In exact arithmetic [evaluate] is
    [0.5 * max(0, 1 - z)^2] for all arguments, its value at [z = 1] is 0
    and it tends to 0 as [z] tends to 1 (from below and from above). *)
Theorem SquaredHinge_closed_form :
  (forall pred truth : float,
     is_nan (pred * truth) = false ->
     evaluate SquaredHingeLoss pred truth =
       Ret (squared_hinge_left_to_right pred truth))
  /\ (forall pred truth : float,
        is_nan (pred * truth) = true ->
        evaluate SquaredHingeLoss pred truth = Ret nan)
  /\ (forall pred truth : float,
        (pred * truth)%float = 1%float ->
        evaluate SquaredHingeLoss pred truth = Ret 0%float)
  /\ (forall pred truth : R,
        evaluate SquaredHingeLoss pred truth =
          Ret (/ 2 * (Rmax 0 (1 - pred * truth))²)%R)
  /\ (forall pred truth : R,
        (pred * truth = 1)%R ->
        evaluate SquaredHingeLoss pred truth = Ret 0%R)
  /\ (forall eps : R, (0 < eps)%R ->
        exists delta : R, (0 < delta)%R /\
          forall pred truth : R, (Rabs (pred * truth - 1) < delta)%R ->
            exists v : R,
              evaluate SquaredHingeLoss pred truth = Ret v /\
              (Rabs v < eps)%R).
Proof.
  split; [exact SquaredHinge_left_to_right|].
  split; [exact SquaredHinge_nan|].
  split; [exact SquaredHinge_at_margin|].
  split; [exact Ideal_SquaredHinge_closed_form|].
  split; [exact Ideal_SquaredHinge_at_margin|].
  exact Ideal_SquaredHinge_limit.
Qed.

Lemma SquaredHinge_closed_form_witness :
  is_nan (0.5 * 1) = false
  /\ evaluate SquaredHingeLoss 0.5%float 1%float = Ret 0.125%float.
Proof.
  split; [reflexivity|].
  exact (proj1 SquaredHinge_closed_form 0.5%float 1%float eq_refl).
Defined.

(** C8, as stated, fails on binary64.  At a NaN prediction the header
    returns NaN where the closed form gives 0 ([std::max(0, NaN)] is 0);
    at [pred = -2^512], [truth = 1] the header returns [2^1023] where the
    closed form, which squares first, overflows to infinity. *)
Lemma SquaredHinge_closed_form_fails :
  evaluate SquaredHingeLoss nan 1%float = Ret nan
  /\ squared_hinge_closed_form nan 1 = 0%float
  /\ squared_hinge_left_to_right nan 1 = 0%float
  /\ evaluate SquaredHingeLoss (-0x1p512)%float 1%float = Ret 0x1p1023%float
  /\ squared_hinge_closed_form (-0x1p512) 1 = infinity
  /\ ~ (forall pred truth : float,
          evaluate SquaredHingeLoss pred truth =
            Ret (squared_hinge_closed_form pred truth)).
Proof.
  repeat split.
  intros H. specialize (H nan 1%float).
  apply (f_equal (fun r => match r with
                           | Ret v => is_nan v
                           | Fatal _ => false
                           end)) in H.
  vm_compute in H. discriminate H.
Qed.

(** * The factory *)

Section Factory.

Context {D : Type} {A : Arith D} {M : Libm D}.

(** C5.  [create] returns the variant of each of the six enumerators, and
    for every other value of the tag it returns the Square variant, whose
    [loss_type] is "Square"; it has no failing path. *)
Theorem create_dispatch :
  (create SQUARE = SquareLoss
   /\ create LOGISTIC = LogisticLoss
   /\ create LOG = LogLoss
   /\ create HINGE = HingeLoss
   /\ create SQUARED_HINGE = SquaredHingeLoss
   /\ create CROSS_ENTROPY = CrossEntropyLoss)
  /\ (loss_type (create SQUARE) = "Square"
      /\ loss_type (create LOGISTIC) = "Logistic"
      /\ loss_type (create LOG) = "Log"
      /\ loss_type (create HINGE) = "Hinge"
      /\ loss_type (create SQUARED_HINGE) = "SquaredHinge"
      /\ loss_type (create CROSS_ENTROPY) = "CrossEntropy")%string
  /\ (forall lt : LossType,
        (lt < SQUARE \/ CROSS_ENTROPY < lt)%Z ->
        create lt = SquareLoss /\ loss_type (create lt) = "Square"%string).
Proof.
  split; [repeat split|]. split; [repeat split|].
  intros lt Hlt.
  assert (E : create lt = SquareLoss).
  { unfold create, SQUARE, LOGISTIC, LOG, HINGE, SQUARED_HINGE,
      CROSS_ENTROPY in *.
    destruct (Z.eqb_spec lt 0); [reflexivity|].
    destruct (Z.eqb_spec lt 1); [lia|].
    destruct (Z.eqb_spec lt 5); [lia|].
    destruct (Z.eqb_spec lt 2); [lia|].
    destruct (Z.eqb_spec lt 3); [lia|].
    destruct (Z.eqb_spec lt 4); [lia|].
    reflexivity. }
  rewrite E. split; reflexivity.
Qed.

End Factory.

Lemma create_dispatch_witness :
  (7 < SQUARE \/ CROSS_ENTROPY < 7)%Z
  /\ create (D := R) 7%Z = SquareLoss
  /\ loss_type (create (D := R) 7%Z) = "Square"%string.
Proof.
  assert (H : (7 < SQUARE \/ CROSS_ENTROPY < 7)%Z) by (right; reflexivity).
  split; [exact H|].
  exact (proj2 (proj2 (create_dispatch (D := R))) 7%Z H).
Defined.

(** * Further properties on binary64 *)

Section SignFacts.

Open Scope Z_scope.

Lemma signed_not_below_zero r :
  r = S754_nan \/ signed_as false r -> SFltb r (S754_zero false) = false.
Proof.
  intros [->|Hs]; [reflexivity|].
  destruct r as [s|s| |s m e]; simpl in Hs; try contradiction; subst;
    reflexivity.
Qed.

(** A product of two non-negative numbers is non-negative, or NaN (zero
    times infinity). *)
Lemma SFmul_nonneg x y :
  signed_as false x -> signed_as false y ->
  SF64mul x y = S754_nan \/ signed_as false (SF64mul x y).
Proof.
  unfold SF64mul.
  destruct x as [s1|s1| |s1 m1 e1], y as [s2|s2| |s2 m2 e2]; simpl;
    intros H1 H2; try contradiction; subst; auto.
  right. apply binary_round_aux_signed. lia.
Qed.

(** A square is non-negative, or NaN. *)
Lemma SFmul_self_nonneg x :
  SF64mul x x = S754_nan \/ signed_as false (SF64mul x x).
Proof.
  unfold SF64mul.
  destruct x as [s|s| |s m e]; simpl; auto.
  - right. destruct s; reflexivity.
  - right. destruct s; reflexivity.
  - right. replace (xorb s s) with false by (destruct s; reflexivity).
    apply binary_round_aux_signed. lia.
Qed.

Lemma zero_lt_signed_false r :
  SFltb (S754_zero false) r = true -> signed_as false r.
Proof.
  destruct r as [s|s| |s m e]; simpl; try discriminate;
    destruct s; try discriminate; reflexivity.
Qed.

End SignFacts.

Section NeverNegative.

Open Scope float_scope.

Lemma not_below_zero_of_spec v :
  Prim2SF v = S754_nan \/ signed_as false (Prim2SF v) -> (v <? 0) = false.
Proof.
  intros H. rewrite ltb_spec. change (Prim2SF 0) with (S754_zero false).
  apply signed_not_below_zero, H.
Qed.

Lemma square_not_negative x : (x * x <? 0) = false.
Proof.
  apply not_below_zero_of_spec. rewrite mul_spec. apply SFmul_self_nonneg.
Qed.

Lemma margin_not_negative z :
  ((if 1 <? z then 0 else 1 - z) <? 0) = false.
Proof.
  destruct (is_nan z) eqn:Hz.
  - apply is_nan_eq in Hz. subst z. reflexivity.
  - pose proof (sub_one_sign z Hz) as H.
    destruct (1 <? z); [reflexivity|].
    destruct H as [->|H]; [reflexivity|].
    destruct (1 - z <? 0) eqn:E; [|reflexivity].
    rewrite (ltb_antisym _ _ E) in H. discriminate.
Qed.

Lemma half_square_not_negative d :
  d = 0 \/ (0 <? d) = true -> (0.5 * d * d <? 0) = false.
Proof.
  intros [->|Hd]; [reflexivity|].
  apply not_below_zero_of_spec.
  rewrite ltb_spec in Hd. change (Prim2SF 0) with (S754_zero false) in Hd.
  apply zero_lt_signed_false in Hd.
  rewrite !mul_spec.
  destruct (SFmul_nonneg (Prim2SF 0.5) (Prim2SF d) eq_refl Hd) as [E|E].
  - left. rewrite E. reflexivity.
  - apply SFmul_nonneg; assumption.
Qed.

(** X1.  On binary64 [evaluate] of Square, Hinge and SquaredHinge never returns
    a negative number, whatever the arguments: the value is [>= 0] or, for
    NaN or overflowing inputs, NaN. *)
Theorem evaluate_never_negative (pred truth : float) :
  (exists v, evaluate SquareLoss pred truth = Ret v /\ (v <? 0) = false)
  /\ (exists v, evaluate HingeLoss pred truth = Ret v /\ (v <? 0) = false)
  /\ (exists v, evaluate SquaredHingeLoss pred truth = Ret v
                /\ (v <? 0) = false).
Proof.
  split; [|split].
  - eexists. split; [reflexivity|]. apply square_not_negative.
  - exists (if 1 <? pred * truth then 0 else 1 - pred * truth). split.
    + cbn. unfold HingeLoss_evaluate. cbn.
      destruct (1 <? pred * truth); reflexivity.
    + apply margin_not_negative.
  - exists (if 1 <? pred * truth then 0
            else 0.5 * (1 - pred * truth) * (1 - pred * truth)). split.
    + cbn. unfold SquaredHingeLoss_evaluate. cbn.
      destruct (1 <? pred * truth); reflexivity.
    + destruct (is_nan (pred * truth)) eqn:Hz.
      * apply is_nan_eq in Hz. rewrite Hz. reflexivity.
      * pose proof (sub_one_sign _ Hz) as H.
        destruct (1 <? pred * truth); [reflexivity|].
        apply half_square_not_negative, H.
Qed.

End NeverNegative.

Section SubtractionSwap.

Open Scope Z_scope.

Lemma SFopp_binary_round s m e :
  SFopp (binary_round prec emax s m e) = binary_round prec emax (negb s) m e.
Proof.
  unfold binary_round. destruct (shl_align m e _) as [mz ez].
  apply SFopp_binary_round_aux.
Qed.

Lemma binary_normalize_opp v e :
  v <> 0 ->
  binary_normalize prec emax (- v) e false =
  SFopp (binary_normalize prec emax v e false).
Proof.
  destruct v as [|p|p]; intros Hv; [contradiction| |]; simpl;
    rewrite SFopp_binary_round; reflexivity.
Qed.

(** Swapping the operands of a subtraction flips the sign of the result,
    unless the result is a zero. *)
Lemma SFsub_swap x y :
  SF64sub y x = SFopp (SF64sub x y) \/
  (is_zero_sf (SF64sub x y) /\ is_zero_sf (SF64sub y x)).
Proof.
  unfold SF64sub.
  destruct x as [s1|s1| |s1 m1 e1], y as [s2|s2| |s2 m2 e2]; simpl;
    try (left; reflexivity);
    try (left; destruct s1, s2; reflexivity);
    try (right; destruct s1, s2; simpl; split; exact I).
  rewrite (Z.min_comm e2 e1).
  set (a := cond_Zopp s1 (Z.pos (fst (shl_align m1 e1 (Z.min e1 e2))))).
  set (b := cond_Zopp s2 (Z.pos (fst (shl_align m2 e2 (Z.min e1 e2))))).
  destruct (Z.eq_dec (a - b) 0) as [E|E].
  - right. replace (b - a) with 0 by lia. rewrite E. simpl. split; exact I.
  - left. replace (b - a) with (- (a - b)) by lia.
    apply binary_normalize_opp, E.
Qed.

Lemma SFmul_opp_r x y :
  SF64mul x (SFopp y) = SFopp (SF64mul x y).
Proof.
  unfold SF64mul.
  destruct x as [s1|s1| |s1 m1 e1], y as [s2|s2| |s2 m2 e2]; simpl;
    try reflexivity; try (destruct s1, s2; reflexivity).
  rewrite SFopp_binary_round_aux. destruct s1, s2; reflexivity.
Qed.

Lemma SFopp_involutive x : SFopp (SFopp x) = x.
Proof. destruct x as [s|s| |s m e]; simpl; rewrite ?negb_involutive; reflexivity. Qed.

(** The square of a difference does not depend on the order of the
    operands. *)
Lemma SFsquare_sub_swap x y :
  SF64mul (SF64sub x y) (SF64sub x y) = SF64mul (SF64sub y x) (SF64sub y x).
Proof.
  destruct (SFsub_swap x y) as [E|[Hx Hy]].
  - rewrite E, SFmul_opp_l, SFmul_opp_r, SFopp_involutive. reflexivity.
  - destruct (SF64sub x y) as [s| | |]; try contradiction.
    destruct (SF64sub y x) as [s'| | |]; try contradiction.
    destruct s, s'; reflexivity.
Qed.

End SubtractionSwap.

Section MoreBinary64.

Open Scope float_scope.

Context {M : Libm float}.

(** X3.  On binary64 the square loss is symmetric in its two arguments:
    [evaluate(pred,truth)] and [evaluate(truth,pred)] are the same double,
    signed zeros and infinities included, and one is a NaN exactly when
    the other is (which NaN is not modelled: [float] has a single one). *)
Theorem Square_evaluate_symmetric (pred truth : float) :
  evaluate SquareLoss pred truth = evaluate SquareLoss truth pred.
Proof.
  cbn. unfold SquareLoss_evaluate. cbn. f_equal.
  apply Prim2SF_inj. rewrite !mul_spec, !sub_spec.
  apply SFsquare_sub_swap.
Qed.

(** [std::max(a, x)] is never below [a] when [a] is a number, even for a
    NaN second operand. *)
Lemma std_max_floor a x : is_nan a = false -> (a <=? std_max a x) = true.
Proof.
  intros Ha. unfold std_max. cbn.
  destruct (a <? x) eqn:E.
  - apply ltb_leb, E.
  - apply leb_refl, Ha.
Qed.

(** X4.  On binary64, whenever Logistic [evaluate] returns, the value is
    [-log a] for an argument [a >= 0.0001]: [log] is never called on
    zero, on a negative number or on NaN, whatever the prediction. *)
Theorem Logistic_log_argument_floored (pred truth : float) :
  match evaluate LogisticLoss pred truth with
  | Fatal _ => True
  | Ret v => exists a, v = - log a /\ (0.0001 <=? a) = true
  end.
Proof.
  cbn. unfold LogisticLoss_evaluate. cbn.
  destruct ((0 <=? pred) && (pred <=? 1)); cbn; [|exact I].
  destruct (truth =? 1) eqn:H1, (truth =? 0) eqn:H0; cbn; try exact I.
  - eexists. split; [reflexivity|]. apply (std_max_floor 0.0001). reflexivity.
  - eexists. split; [reflexivity|]. apply (std_max_floor 0.0001). reflexivity.
  - eexists. split; [reflexivity|]. apply (std_max_floor 0.0001). reflexivity.
Qed.

End MoreBinary64.

Section NaNPropagation.

Open Scope float_scope.

Lemma SFmul_finite_r_not_nan x m e :
  x <> S754_nan -> SF64mul x (S754_finite false m e) <> S754_nan.
Proof.
  unfold SF64mul. destruct x as [s|s| |s m' e']; simpl; try congruence.
  intros _ E.
  pose proof (binary_round_aux_signed (xorb s false)
                (Z.pos (m' * m)) (e' + e) loc_Exact) as H.
  rewrite E in H. apply H. apply Pos2Z.is_nonneg.
Qed.

Lemma is_nan_of_spec v : Prim2SF v <> S754_nan -> is_nan v = false.
Proof.
  intros H. destruct (is_nan v) eqn:E; [|reflexivity].
  apply is_nan_eq in E. subst v. exfalso. apply H. reflexivity.
Qed.

Lemma half_square_not_nan d :
  d = 0 \/ (0 <? d) = true -> is_nan (0.5 * d * d) = false.
Proof.
  intros [->|Hd]; [reflexivity|].
  rewrite ltb_spec in Hd. change (Prim2SF 0) with (S754_zero false) in Hd.
  destruct (Prim2SF d) as [s|s| |s m e] eqn:Ed; try discriminate.
  - destruct s; try discriminate.
    assert (d = infinity) by (apply Prim2SF_inj; rewrite Ed; reflexivity).
    subst d. reflexivity.
  - destruct s; try discriminate.
    apply is_nan_of_spec. rewrite mul_spec, Ed.
    apply SFmul_finite_r_not_nan.
    rewrite mul_spec, Ed. apply SFmul_finite_r_not_nan. discriminate.
Qed.

(** X2.  On binary64 Hinge and SquaredHinge produce a NaN only from a NaN
    margin: what [evaluate] returns is NaN exactly when [pred*truth] is
    (no overflow or cancellation inside the loss can create one). *)
Theorem hinge_family_nan_iff (pred truth : float) :
  is_nan (returned (evaluate HingeLoss pred truth) 0) = is_nan (pred * truth)
  /\ is_nan (returned (evaluate SquaredHingeLoss pred truth) 0)
     = is_nan (pred * truth).
Proof.
  cbn. unfold HingeLoss_evaluate, SquaredHingeLoss_evaluate. cbn.
  destruct (is_nan (pred * truth)) eqn:Hz.
  - apply is_nan_eq in Hz. rewrite Hz. split; reflexivity.
  - pose proof (sub_one_sign _ Hz) as H.
    destruct (1 <? pred * truth); [split; reflexivity|]. cbn. split.
    + destruct H as [->|H]; [reflexivity|].
      apply is_nan_of_spec. intros E. rewrite ltb_spec, E in H.
      discriminate H.
    + apply half_square_not_nan, H.
Qed.

End NaNPropagation.

(** * Analytic properties in exact arithmetic *)

Section Calculus.

Open Scope R_scope.

Lemma D_affine (a b p : R) : derivable_pt_lim (fun q => a + b * q) p b.
Proof.
  intros eps Heps. exists (mkposreal 1 Rlt_0_1). intros h Hh _.
  replace ((a + b * (p + h) - (a + b * p)) / h - b) with 0 by (field; exact Hh).
  rewrite Rabs_R0. exact Heps.
Qed.

Lemma D_exp_affine (a b p : R) :
  derivable_pt_lim (fun q => Rtrigo_def.exp (a + b * q)) p
    (b * Rtrigo_def.exp (a + b * p)).
Proof.
  rewrite Rmult_comm.
  apply (derivable_pt_lim_comp (fun q => a + b * q) Rtrigo_def.exp).
  - apply D_affine.
  - apply derivable_pt_lim_exp.
Qed.

Lemma D_ln_of (g : R -> R) (p l : R) :
  derivable_pt_lim g p l -> 0 < g p ->
  derivable_pt_lim (fun q => ln (g q)) p (l / g p).
Proof.
  intros Hg Hpos. unfold Rdiv. rewrite Rmult_comm.
  apply (derivable_pt_lim_comp g ln); [exact Hg|].
  apply derivable_pt_lim_ln, Hpos.
Qed.

Lemma D_plus (f g : R -> R) (p l1 l2 : R) :
  derivable_pt_lim f p l1 -> derivable_pt_lim g p l2 ->
  derivable_pt_lim (fun q => f q + g q) p (l1 + l2).
Proof. intros Hf Hg. exact (derivable_pt_lim_plus f g p l1 l2 Hf Hg). Qed.

Lemma D_mult (f g : R -> R) (p l1 l2 : R) :
  derivable_pt_lim f p l1 -> derivable_pt_lim g p l2 ->
  derivable_pt_lim (fun q => f q * g q) p (l1 * g p + f p * l2).
Proof. intros Hf Hg. exact (derivable_pt_lim_mult f g p l1 l2 Hf Hg). Qed.

Lemma D_opp (f : R -> R) (p l : R) :
  derivable_pt_lim f p l -> derivable_pt_lim (fun q => - f q) p (- l).
Proof. intros Hf. exact (derivable_pt_lim_opp f p l Hf). Qed.

Lemma D_value (f : R -> R) (p l l' : R) :
  derivable_pt_lim f p l -> l = l' -> derivable_pt_lim f p l'.
Proof. intros Hf <-. exact Hf. Qed.



End Calculus.

Section IdealClosedForms.

Open Scope R_scope.

Lemma Ideal_Square_forms (p t : R) :
  loss_curve SquareLoss t p = (t - p) * (t - p)
  /\ slope SquareLoss p t = - 2 * (t - p).
Proof.
  unfold loss_curve, slope. cbn -[Q2R]. unfold SquareLoss_gradient.
  cbn -[Q2R]. use_literals. split; reflexivity.
Qed.

Lemma Ideal_Hinge_forms (p t : R) :
  loss_curve HingeLoss t p = (if Rlt_dec 1 (p * t) then 0 else 1 - p * t)
  /\ slope HingeLoss p t = (if Rlt_dec 1 (p * t) then 0 else - t).
Proof.
  unfold loss_curve, slope. cbn -[Q2R].
  unfold HingeLoss_evaluate, HingeLoss_gradient. cbn -[Q2R]. use_literals.
  unfold Rltb. destruct (Rlt_dec 1 (p * t)); split; reflexivity.
Qed.

Lemma Ideal_SquaredHinge_forms (p t : R) :
  loss_curve SquaredHingeLoss t p =
    / 2 * (Rmax 0 (1 - p * t) * Rmax 0 (1 - p * t))
  /\ slope SquaredHingeLoss p t = - t * Rmax 0 (1 - p * t).
Proof.
  unfold loss_curve, slope. cbn -[Q2R].
  unfold SquaredHingeLoss_evaluate, SquaredHingeLoss_gradient.
  cbn -[Q2R]. use_literals.
  unfold Rltb. destruct (Rlt_dec 1 (p * t)); cbn.
  - rewrite Rmax_left by lra. split; lra.
  - rewrite Rmax_right by lra. split; lra.
Qed.

Lemma Ideal_Log_forms (p t : R) :
  loss_curve LogLoss t p =
    (if Rlt_dec 18 (p * t) then Rtrigo_def.exp (- (p * t))
     else if Rlt_dec (p * t) (-18) then - (p * t)
     else ln (1 + Rtrigo_def.exp (- (p * t))))
  /\ slope LogLoss p t =
    (if Rlt_dec 18 (p * t) then - t * Rtrigo_def.exp (- (p * t))
     else if Rlt_dec (p * t) (-18) then - t
     else - t / (1 + Rtrigo_def.exp (p * t))).
Proof.
  unfold loss_curve, slope. cbn -[Q2R].
  unfold LogLoss_evaluate, LogLoss_gradient. cbn -[Q2R]. use_literals.
  unfold Rltb.
  destruct (Rlt_dec 18 (p * t)); [split; reflexivity|].
  destruct (Rlt_dec (p * t) (-18)); split; reflexivity.
Qed.

Lemma Ideal_CrossEntropy_forms (p y : R) :
  loss_curve CrossEntropyLoss y p =
    (if Rlt_dec 18 p then (1 - y) * p + Rtrigo_def.exp (- p)
     else if Rlt_dec p (-18) then (1 - y) * p - p
     else (1 - y) * p + ln (1 + Rtrigo_def.exp (- p)))
  /\ slope CrossEntropyLoss p y =
    (if Rlt_dec 18 p then 1 - y
     else if Rlt_dec p (-18) then Rtrigo_def.exp p - y
     else 1 / (1 + Rtrigo_def.exp (- p)) - y).
Proof.
  unfold loss_curve, slope. cbn -[Q2R].
  unfold CrossEntropyLoss_evaluate, CrossEntropyLoss_gradient.
  cbn -[Q2R]. use_literals. unfold Rltb.
  destruct (Rlt_dec 18 p), (Rlt_dec p (-18)); try lra; split; reflexivity.
Qed.

Lemma Ideal_Logistic_gradient (p y : R) :
  0 < p < 1 -> y = 0 \/ y = 1 ->
  gradient LogisticLoss p y = Ret ((p - y) / (p * (1 - p))).
Proof.
  intros [Hp0 Hp1] Hy. cbn -[Q2R]. unfold LogisticLoss_gradient.
  cbn -[Q2R]. use_literals.
  rewrite (proj2 (Rltb_true 0 p) Hp0), (proj2 (Rltb_true p 1) Hp1).
  destruct Hy as [-> | ->].
  - rewrite (proj2 (Reqb_true 0 0) eq_refl), orb_true_r. reflexivity.
  - rewrite (proj2 (Reqb_true 1 1) eq_refl). reflexivity.
Qed.

End IdealClosedForms.

Section GradientIsDerivative.

Open Scope R_scope.

(** The function [u -> max(0,u)^2] is differentiable everywhere, the kink
    at 0 included, with derivative [2 max(0,u)]. *)
Lemma D_relu_sq (u : R) :
  derivable_pt_lim (fun v => Rmax 0 v * Rmax 0 v) u (2 * Rmax 0 u).
Proof.
  destruct (Rtotal_order u 0) as [Hu|[Hu|Hu]].
  - rewrite Rmax_left by lra.
    apply (derivable_pt_lim_locally_ext (fun v => 0 + 0 * v) _ u (u - 1) 0);
      [lra| |eapply D_value; [apply D_affine|lra]].
    intros z Hz. rewrite Rmax_left by lra. lra.
  - subst u. rewrite Rmax_left by lra.
    intros eps Heps. exists (mkposreal eps Heps). intros h Hh Hlt.
    cbn in Hlt. rewrite Rplus_0_l, (Rmax_left 0 0) by lra.
    unfold Rmax. destruct (Rle_dec 0 h) as [H0|H0].
    + replace ((h * h - 0 * 0) / h - 2 * 0) with h by (field; exact Hh).
      exact Hlt.
    + replace ((0 * 0 - 0 * 0) / h - 2 * 0) with 0 by (field; exact Hh).
      rewrite Rabs_R0. exact Heps.
  - rewrite Rmax_right by lra.
    apply (derivable_pt_lim_locally_ext
             (fun v => (0 + 1 * v) * (0 + 1 * v)) _ u 0 (u + 1)); [lra| |].
    + intros z Hz. rewrite Rmax_right by lra. ring.
    + eapply D_value.
      * apply (D_mult (fun v => 0 + 1 * v) (fun v => 0 + 1 * v));
          apply D_affine.
      * lra.
Qed.

(** X5.  In exact arithmetic the square loss is differentiable in the
    prediction everywhere and [gradient] returns its derivative. *)
Theorem Square_gradient_is_derivative (pred truth : R) :
  derivable_pt_lim (loss_curve SquareLoss truth) pred
    (slope SquareLoss pred truth).
Proof.
  apply (derivable_pt_lim_ext
           (fun q => (truth + -1 * q) * (truth + -1 * q))).
  - intros z. rewrite (proj1 (Ideal_Square_forms z truth)). ring.
  - eapply D_value.
    + apply D_mult; apply D_affine.
    + rewrite (proj2 (Ideal_Square_forms pred truth)). ring.
Qed.

(** X6.  In exact arithmetic the squared hinge loss is differentiable in the
    prediction everywhere, the margin boundary included, and [gradient]
    returns its derivative. *)
Theorem SquaredHinge_gradient_is_derivative (pred truth : R) :
  derivable_pt_lim (loss_curve SquaredHingeLoss truth) pred
    (slope SquaredHingeLoss pred truth).
Proof.
  apply (derivable_pt_lim_ext
           (fun q => (/ 2 + 0 * q) *
                     comp (fun v => Rmax 0 v * Rmax 0 v)
                          (fun q => 1 + - truth * q) q)).
  - intros z. rewrite (proj1 (Ideal_SquaredHinge_forms z truth)).
    unfold comp. replace (1 + - truth * z) with (1 - z * truth) by ring.
    ring.
  - eapply D_value.
    + apply D_mult; [apply D_affine|].
      apply derivable_pt_lim_comp; [apply D_affine|apply D_relu_sq].
    + rewrite (proj2 (Ideal_SquaredHinge_forms pred truth)).
      unfold comp. replace (1 + - truth * pred) with (1 - pred * truth) by ring.
      field.
Qed.


End GradientIsDerivative.

Section GradientIsDerivative2.

Open Scope R_scope.

Lemma D_softplus_margin (t p : R) :
  derivable_pt_lim
    (fun q => ln ((1 + 0 * q) + Rtrigo_def.exp (0 + - t * q))) p
    (- t / (1 + Rtrigo_def.exp (p * t))).
Proof.
  pose proof (exp_pos (0 + - t * p)) as He.
  pose proof (exp_pos (p * t)) as HE.
  eapply D_value.
  - apply (D_ln_of (fun q => (1 + 0 * q) + Rtrigo_def.exp (0 + - t * q))).
    + apply D_plus; [apply D_affine|apply D_exp_affine].
    + lra.
  - replace (0 + - t * p) with (- (p * t)) by ring.
    rewrite exp_Ropp. field. split; lra.
Qed.


(** X9.  In exact arithmetic [gradient] of the cross-entropy loss is the
    derivative of [evaluate] for [-18 < pred < 18].  In the two outer
    branches it is not: the derivative of what [evaluate] returns is
    [gradient - exp(-pred)] above 18 and [gradient - exp(pred)] below -18,
    a difference smaller than [exp(-18)]. *)
Theorem CrossEntropy_gradient_vs_derivative (pred truth : R) :
  (-18 < pred < 18 ->
     derivable_pt_lim (loss_curve CrossEntropyLoss truth) pred
       (slope CrossEntropyLoss pred truth))
  /\ (18 < pred ->
     derivable_pt_lim (loss_curve CrossEntropyLoss truth) pred
       (slope CrossEntropyLoss pred truth - Rtrigo_def.exp (- pred))
     /\ 0 < Rtrigo_def.exp (- pred) < Rtrigo_def.exp (-18))
  /\ (pred < -18 ->
     derivable_pt_lim (loss_curve CrossEntropyLoss truth) pred
       (slope CrossEntropyLoss pred truth - Rtrigo_def.exp pred)
     /\ 0 < Rtrigo_def.exp pred < Rtrigo_def.exp (-18)).
Proof.
  rewrite (proj2 (Ideal_CrossEntropy_forms pred truth)).
  split; [|split].
  - intros [Hlo Hhi].
    destruct (Rlt_dec 18 pred); [lra|]. destruct (Rlt_dec pred (-18)); [lra|].
    apply (derivable_pt_lim_locally_ext
             (fun q => (0 + (1 - truth) * q) +
                       ln ((1 + 0 * q) + Rtrigo_def.exp (0 + - 1 * q)))
             _ pred (-18) 18); [lra| |].
    + intros z Hz. rewrite (proj1 (Ideal_CrossEntropy_forms z truth)).
      destruct (Rlt_dec 18 z); [lra|]. destruct (Rlt_dec z (-18)); [lra|].
      replace (0 + - 1 * z) with (- z) by ring.
      replace (1 + 0 * z + Rtrigo_def.exp (- z)) with (1 + Rtrigo_def.exp (- z)) by ring.
      ring.
    + eapply D_value.
      * apply D_plus; [apply D_affine|apply (D_softplus_margin 1 pred)].
      * pose proof (exp_pos pred) as HE.
        rewrite exp_Ropp, Rmult_1_r. field. split; lra.
  - intros Hhi. destruct (Rlt_dec 18 pred); [|lra]. split.
    + apply (derivable_pt_lim_locally_ext
               (fun q => (0 + (1 - truth) * q) + Rtrigo_def.exp (0 + - 1 * q))
               _ pred 18 (pred + 1)); [lra| |].
      * intros z Hz. rewrite (proj1 (Ideal_CrossEntropy_forms z truth)).
        destruct (Rlt_dec 18 z); [|lra].
        replace (0 + - 1 * z) with (- z) by ring. ring.
      * eapply D_value.
        -- apply D_plus; [apply D_affine|apply D_exp_affine].
        -- replace (0 + - 1 * pred) with (- pred) by ring. ring.
    + split; [apply exp_pos|apply exp_increasing; lra].
  - intros Hlo. destruct (Rlt_dec 18 pred); [lra|].
    destruct (Rlt_dec pred (-18)); [|lra]. split.
    + apply (derivable_pt_lim_locally_ext
               (fun q => 0 + - truth * q) _ pred (pred - 1) (-18)); [lra| |].
      * intros z Hz. rewrite (proj1 (Ideal_CrossEntropy_forms z truth)).
        destruct (Rlt_dec 18 z); [lra|]. destruct (Rlt_dec z (-18)); [|lra].
        ring.
      * eapply D_value; [apply D_affine|ring].
    + split; [apply exp_pos|apply exp_increasing; lra].
Qed.

Lemma Ideal_Logistic_curve_1 (p : R) :
  0 <= p <= 1 ->
  loss_curve LogisticLoss 1 p = - ln (Rmax (/ 10000) p).
Proof.
  intros Hp. unfold loss_curve. rewrite Ideal_Logistic_evaluate_1 by exact Hp.
  reflexivity.
Qed.

Lemma Ideal_Logistic_curve_0 (p : R) :
  0 <= p <= 1 ->
  loss_curve LogisticLoss 0 p = - ln (Rmax (/ 10000) (1 - p)).
Proof.
  intros Hp. unfold loss_curve. rewrite Ideal_Logistic_evaluate_0 by exact Hp.
  reflexivity.
Qed.

Lemma Ideal_Logistic_slope (p y : R) :
  0 < p < 1 -> y = 0 \/ y = 1 ->
  slope LogisticLoss p y = (p - y) / (p * (1 - p)).
Proof.
  intros Hp Hy. unfold slope. rewrite Ideal_Logistic_gradient by assumption.
  reflexivity.
Qed.

(** X10.  In exact arithmetic [gradient] of the logistic loss is the derivative
    of [evaluate] where the floor is inactive ([1e-4 < pred] for label 1,
    [pred < 1 - 1e-4] for label 0).  Where the floor is active [evaluate]
    is flat, derivative 0, while [gradient] still returns [-1/pred]
    (label 1) or [1/(1-pred)] (label 0). *)
Theorem Logistic_gradient_vs_derivative (pred : R) :
  (/ 10000 < pred < 1 ->
     derivable_pt_lim (loss_curve LogisticLoss 1) pred
       (slope LogisticLoss pred 1))
  /\ (0 < pred < 1 - / 10000 ->
     derivable_pt_lim (loss_curve LogisticLoss 0) pred
       (slope LogisticLoss pred 0))
  /\ (0 < pred < / 10000 ->
     derivable_pt_lim (loss_curve LogisticLoss 1) pred 0
     /\ slope LogisticLoss pred 1 = - / pred)
  /\ (1 - / 10000 < pred < 1 ->
     derivable_pt_lim (loss_curve LogisticLoss 0) pred 0
     /\ slope LogisticLoss pred 0 = / (1 - pred)).
Proof.
  split; [|split; [|split]].
  - intros Hp.
    apply (derivable_pt_lim_locally_ext
             (fun q => - ln (0 + 1 * q)) _ pred (/ 10000) 1); [exact Hp| |].
    + intros z Hz. rewrite Ideal_Logistic_curve_1 by lra.
      rewrite Rmax_right by lra. f_equal. f_equal. ring.
    + eapply D_value.
      * apply D_opp. apply (D_ln_of (fun q => 0 + 1 * q)); [apply D_affine|lra].
      * rewrite Ideal_Logistic_slope by (auto; lra). field. lra.
  - intros Hp.
    apply (derivable_pt_lim_locally_ext
             (fun q => - ln (1 + -1 * q)) _ pred 0 (1 - / 10000));
      [exact Hp| |].
    + intros z Hz. rewrite Ideal_Logistic_curve_0 by lra.
      rewrite Rmax_right by lra. f_equal. f_equal. ring.
    + eapply D_value.
      * apply D_opp. apply (D_ln_of (fun q => 1 + -1 * q)); [apply D_affine|lra].
      * rewrite Ideal_Logistic_slope by (auto; lra). field. lra.
  - intros Hp. split.
    + apply (derivable_pt_lim_locally_ext
               (fun q => - ln (/ 10000) + 0 * q) _ pred 0 (/ 10000));
        [exact Hp| |apply D_affine].
      intros z Hz. rewrite Ideal_Logistic_curve_1 by lra.
      rewrite Rmax_left by lra. ring.
    + rewrite Ideal_Logistic_slope by (auto; lra). field. lra.
  - intros Hp. split.
    + apply (derivable_pt_lim_locally_ext
               (fun q => - ln (/ 10000) + 0 * q) _ pred (1 - / 10000) 1);
        [exact Hp| |apply D_affine].
      intros z Hz. rewrite Ideal_Logistic_curve_0 by lra.
      rewrite Rmax_left by lra. ring.
    + rewrite Ideal_Logistic_slope by (auto; lra). field. lra.
Qed.

End GradientIsDerivative2.

Section Softplus.

Open Scope R_scope.

Lemma ln1p_bounds (x : R) : 0 < x -> 0 < ln (1 + x) < x.
Proof.
  intros Hx. split.
  - rewrite <- ln_1. apply ln_increasing; lra.
  - rewrite <- (ln_exp x) at 2. apply ln_increasing; [lra|].
    apply exp_ineq1. lra.
Qed.

(** [log(1 + exp(-z)) = -z + log(1 + exp(z))]. *)
Lemma softplus_reflect (z : R) :
  ln (1 + Rtrigo_def.exp (- z)) = - z + ln (1 + Rtrigo_def.exp z).
Proof.
  pose proof (exp_pos z) as HE. pose proof (exp_pos (- z)) as He.
  replace (1 + Rtrigo_def.exp (- z))
    with (Rtrigo_def.exp (- z) * (1 + Rtrigo_def.exp z)).
  - rewrite ln_mult by lra. rewrite ln_exp. reflexivity.
  - rewrite exp_Ropp. field. lra.
Qed.



(** X12.  In exact arithmetic no variant returns a negative loss on its
    documented domain: Square, Hinge, SquaredHinge and Log for all
    arguments, CrossEntropy for [truth] in [[0,1]], Logistic whenever it
    returns. *)
Theorem Ideal_losses_nonnegative (pred truth : R) :
  0 <= loss_curve SquareLoss truth pred
  /\ 0 <= loss_curve HingeLoss truth pred
  /\ 0 <= loss_curve SquaredHingeLoss truth pred
  /\ 0 <= loss_curve LogLoss truth pred
  /\ (0 <= truth <= 1 -> 0 <= loss_curve CrossEntropyLoss truth pred)
  /\ 0 <= loss_curve LogisticLoss truth pred.
Proof.
  repeat split.
  - rewrite (proj1 (Ideal_Square_forms pred truth)).
    apply (Rle_0_sqr (truth - pred)).
  - rewrite (proj1 (Ideal_Hinge_forms pred truth)).
    destruct (Rlt_dec 1 (pred * truth)); lra.
  - rewrite (proj1 (Ideal_SquaredHinge_forms pred truth)).
    pose proof (Rle_0_sqr (Rmax 0 (1 - pred * truth))) as Hs.
    unfold Rsqr in Hs. lra.
  - rewrite (proj1 (Ideal_Log_forms pred truth)).
    destruct (Rlt_dec 18 (pred * truth));
      [|destruct (Rlt_dec (pred * truth) (-18))].
    + left. apply exp_pos.
    + lra.
    + left. apply (ln1p_bounds _ (exp_pos (- (pred * truth)))).
  - intros Ht. rewrite (proj1 (Ideal_CrossEntropy_forms pred truth)).
    destruct (Rlt_dec 18 pred); [|destruct (Rlt_dec pred (-18))].
    + pose proof (exp_pos (- pred)). nra.
    + nra.
    + destruct (Rle_dec 0 pred).
      * pose proof (ln1p_bounds _ (exp_pos (- pred))). nra.
      * rewrite softplus_reflect.
        pose proof (ln1p_bounds _ (exp_pos pred)). nra.
  - unfold loss_curve. cbn -[Q2R]. unfold LogisticLoss_evaluate.
    cbn -[Q2R std_max]. rewrite !std_max_Rmax. use_literals.
    destruct (Rleb 0 pred && Rleb pred 1) eqn:Hc; cbn; [|lra].
    apply andb_prop in Hc. destruct Hc as [Hc0 Hc1].
    apply Rleb_true in Hc0. apply Rleb_true in Hc1.
    destruct (Reqb truth 1 || Reqb truth 0); cbn; [|lra].
    assert (Hln : forall a, / 10000 <= a -> a <= 1 -> 0 <= - ln a).
    { intros a Ha0 Ha1. destruct Ha1 as [Ha1| ->].
      - apply (ln_increasing a 1) in Ha1; [|lra]. rewrite ln_1 in Ha1. lra.
      - rewrite ln_1. lra. }
    destruct (Reqb truth 0); [|destruct (Reqb truth 1)]; cbn.
    + apply Hln; [apply Rmax_l|apply Rmax_lub; lra].
    + apply Hln; [apply Rmax_l|apply Rmax_lub; lra].
    + lra.
Qed.

End Softplus.

Section Sigmoid.

Open Scope R_scope.

(** In exact arithmetic the sigmoid lies strictly between 0 and 1. *)
Lemma sigmoid_range (x : R) : 0 < 1 / (1 + Rtrigo_def.exp (- x)) < 1.
Proof.
  pose proof (exp_pos (- x)) as He.
  split.
  - apply Rdiv_lt_0_compat; lra.
  - apply (Rmult_lt_reg_r (1 + Rtrigo_def.exp (- x))); [lra|].
    unfold Rdiv. rewrite Rmult_assoc, Rinv_l by lra. lra.
Qed.

End Sigmoid.

Section Names.

Context {D : Type} {A : Arith D} {M : Libm D}.

(** X16.  The name identifies the variant: two enumerators whose instances have
    the same [loss_type] are the same enumerator. *)
Theorem loss_type_determines_tag (a b : LossType) :
  (SQUARE <= a <= CROSS_ENTROPY)%Z ->
  (SQUARE <= b <= CROSS_ENTROPY)%Z ->
  loss_type (create a) = loss_type (create b) -> a = b.
Proof.
  unfold SQUARE, CROSS_ENTROPY. intros Ha Hb.
  assert (Ea : (a = 0 \/ a = 1 \/ a = 2 \/ a = 3 \/ a = 4 \/ a = 5)%Z)
    by lia.
  assert (Eb : (b = 0 \/ b = 1 \/ b = 2 \/ b = 3 \/ b = 4 \/ b = 5)%Z)
    by lia.
  destruct Ea as [->|[->|[->|[->|[->| ->]]]]];
    destruct Eb as [->|[->|[->|[->|[->| ->]]]]];
    cbn; intros H; try reflexivity; discriminate H.
Qed.

End Names.

Section BoundedGradients.

Open Scope R_scope.

Lemma Rabs_scaled (t s : R) : 0 <= s <= 1 -> Rabs (- t * s) <= Rabs t.
Proof.
  intros Hs. rewrite Rabs_mult, Rabs_Ropp.
  rewrite (Rabs_right s) by lra.
  pose proof (Rabs_pos t). nra.
Qed.

(** X13.  In exact arithmetic the gradients of the classification losses are
    bounded: Hinge and Log never return more than [|truth|] in absolute
    value (1 for labels -1 and 1), CrossEntropy never more than 1 for a
    label in [[0,1]]. *)
Theorem gradients_bounded (pred truth : R) :
  Rabs (slope HingeLoss pred truth) <= Rabs truth
  /\ Rabs (slope LogLoss pred truth) <= Rabs truth
  /\ (0 <= truth <= 1 -> Rabs (slope CrossEntropyLoss pred truth) <= 1).
Proof.
  split; [|split].
  - rewrite (proj2 (Ideal_Hinge_forms pred truth)).
    destruct (Rlt_dec 1 (pred * truth)).
    + rewrite Rabs_R0. apply Rabs_pos.
    + rewrite Rabs_Ropp. lra.
  - rewrite (proj2 (Ideal_Log_forms pred truth)).
    destruct (Rlt_dec 18 (pred * truth));
      [|destruct (Rlt_dec (pred * truth) (-18))].
    + apply Rabs_scaled.
      pose proof (exp_pos (- (pred * truth))).
      assert (Rtrigo_def.exp (- (pred * truth)) < Rtrigo_def.exp 0)
        by (apply exp_increasing; lra).
      rewrite exp_0 in *. lra.
    + rewrite Rabs_Ropp. lra.
    + unfold Rdiv. apply Rabs_scaled.
      pose proof (exp_pos (pred * truth)) as HE.
      assert (0 < / (1 + Rtrigo_def.exp (pred * truth)))
        by (apply Rinv_0_lt_compat; lra).
      assert (/ (1 + Rtrigo_def.exp (pred * truth)) < / 1)
        by (apply Rinv_lt_contravar; lra).
      rewrite Rinv_1 in *. lra.
  - intros Ht. rewrite (proj2 (Ideal_CrossEntropy_forms pred truth)).
    destruct (Rlt_dec 18 pred); [|destruct (Rlt_dec pred (-18))].
    + apply Rabs_le. lra.
    + pose proof (exp_pos pred).
      assert (Rtrigo_def.exp pred < Rtrigo_def.exp 0)
        by (apply exp_increasing; lra).
      rewrite exp_0 in *. apply Rabs_le. lra.
    + pose proof (sigmoid_range pred). apply Rabs_le. lra.
Qed.

End BoundedGradients.

(** * Instances of the conditional statements *)



Lemma CrossEntropy_gradient_vs_derivative_witness :
  (-18 < 0 < 18)%R
  /\ derivable_pt_lim (loss_curve CrossEntropyLoss 1%R) 0%R
       (slope CrossEntropyLoss 0%R 1%R).
Proof.
  assert (H : (-18 < 0 < 18)%R) by lra.
  split; [exact H|].
  exact (proj1 (CrossEntropy_gradient_vs_derivative 0%R 1%R) H).
Defined.

Lemma Logistic_gradient_vs_derivative_witness :
  (/ 10000 < / 2 < 1)%R
  /\ derivable_pt_lim (loss_curve LogisticLoss 1%R) (/ 2)%R
       (slope LogisticLoss (/ 2)%R 1%R).
Proof.
  assert (H : (/ 10000 < / 2 < 1)%R) by lra.
  split; [exact H|].
  exact (proj1 (Logistic_gradient_vs_derivative (/ 2)%R) H).
Defined.


Lemma Ideal_losses_nonnegative_witness :
  (0 <= 1 <= 1)%R /\ (0 <= loss_curve CrossEntropyLoss 1%R 3%R)%R.
Proof.
  assert (H : (0 <= 1 <= 1)%R) by lra.
  split; [exact H|].
  exact (proj1 (proj2 (proj2 (proj2 (proj2
           (Ideal_losses_nonnegative 3%R 1%R))))) H).
Defined.

Lemma gradients_bounded_witness :
  (0 <= 1 <= 1)%R /\ (Rabs (slope CrossEntropyLoss 3%R 1%R) <= 1)%R.
Proof.
  assert (H : (0 <= 1 <= 1)%R) by lra.
  split; [exact H|].
  exact (proj2 (proj2 (gradients_bounded 3%R 1%R)) H).
Defined.

Lemma loss_type_determines_tag_witness :
  (SQUARE <= HINGE <= CROSS_ENTROPY)%Z
  /\ (loss_type (create (D := R) HINGE) = loss_type (create (D := R) HINGE)
      -> HINGE = HINGE).
Proof.
  assert (H : (SQUARE <= HINGE <= CROSS_ENTROPY)%Z)
    by (split; discriminate).
  split; [exact H|].
  exact (loss_type_determines_tag (D := R) HINGE HINGE H H).
Defined.
